(** * backgroundremover.pyw: a shallow embedding and its properties

    The script removes the background of one image with OpenCV's GrabCut
    and registers itself in the Windows context menu.  The embedding
    follows [backgroundremover.pyw] function by function:

    - numpy arrays are lists of rows; a [uint8] cell is a [Z] with the
      wrap-around written out;
    - the lines of [remove_background] that build the RGBA result are
      given twice, as a function on array contents ([composite]) and as a
      program on a store of array objects ([composite_prog]);
    - [remove_background], the registry functions and [main] live in a
      small state-and-exception monad over the file store, the registry
      and standard output;
    - what the script calls but does not contain (the GrabCut estimator,
      the image codec, the registry) is modelled from the specification
      and marked as such. *)

From Stdlib Require Import ZArith Ascii SpecFloat.
From stdpp Require Import base list strings gmap.

Open Scope Z_scope.

(* ================================================================== *)
(** * Part I: definitions                                              *)
(* ================================================================== *)

(** ** Pixels and arrays *)

(** [.astype(np.uint8)] and arithmetic on [uint8] arrays wrap modulo 256. *)
Definition uint8 (z : Z) : Z := z mod 256.

Definition is_uint8 (z : Z) : bool := (0 <=? z) && (z <? 256).

(** A pixel of the array [cv2.imread] returns: three channels, B, G, R. *)
Record bgr := Bgr { blue : Z; green : Z; red : Z }.

(** A pixel of the array handed to [cv2.imwrite]: B, G, R and alpha. *)
Record bgra := Bgra { blue4 : Z; green4 : Z; red4 : Z; alpha4 : Z }.

(** An h×w array of [A]: a list of h rows of w cells. *)
Abbreviation grid A := (list (list A)).

Abbreviation plane := (grid Z).
Abbreviation image := (grid bgr).
Abbreviation image4 := (grid bgra).

(** [a[i, j]] *)
Definition at2 {A} (a : grid A) (i j : nat) : option A :=
  a !! i ≫= λ row, row !! j.

(** [a.shape[:2]], row by row: equal exactly when two grids have the same
    height and the same width in every row. *)
Definition shape {A} (a : grid A) : list nat := length <$> a.

(** [height, width = img.shape[:2]] *)
Definition height {A} (a : grid A) : Z := Z.of_nat (length a).
Definition width {A} (a : grid A) : Z := Z.of_nat (length (hd [] a)).

Definition is_pixel (p : bgr) : bool :=
  is_uint8 (blue p) && is_uint8 (green p) && is_uint8 (red p).

(** Every channel of every pixel is a [uint8]. *)
Definition is_image (img : image) : bool := forallb (forallb is_pixel) img.

(** ** GrabCut classes

    [cv2.GC_BGD], [cv2.GC_FGD], [cv2.GC_PR_BGD], [cv2.GC_PR_FGD]: the
    values of OpenCV's [GrabCutClasses] enumeration, the four labels of a
    label mask (definite background, definite foreground, probable
    background, probable foreground). *)
Definition GC_BGD : Z := 0.
Definition GC_FGD : Z := 1.
Definition GC_PR_BGD : Z := 2.
Definition GC_PR_FGD : Z := 3.

Definition is_label (m : Z) : bool :=
  (m =? GC_BGD) || (m =? GC_FGD) || (m =? GC_PR_BGD) || (m =? GC_PR_FGD).

(** A label mask: every cell holds one of the four labels. *)
Definition is_mask (mask : plane) : bool := forallb (forallb is_label) mask.

Definition is_foreground (m : Z) : bool := (m =? GC_FGD) || (m =? GC_PR_FGD).

(** ** The alpha compositor, on array contents

    [remove_background], from [mask2 = np.where(...)] to [cv2.merge]. *)

(** [np.where((mask == cv2.GC_BGD) | (mask == cv2.GC_PR_BGD), 0, 1).astype('uint8')] *)
Definition where_bg (mask : plane) : plane :=
  fmap (M := list) (fmap (M := list)
    (λ m, uint8 (if (m =? GC_BGD) || (m =? GC_PR_BGD) then 0 else 1))) mask.

(** [img * mask2[:, :, np.newaxis]]: every channel times the mask cell of
    its pixel, in [uint8]. *)
Definition mul_px (p : bgr) (m : Z) : bgr :=
  Bgr (uint8 (blue p * m)) (uint8 (green p * m)) (uint8 (red p * m)).

Definition mul_newaxis (img : image) (mask2 : plane) : image :=
  zip_with (zip_with mul_px) img mask2.

(** [(mask2 * 255).astype(np.uint8)] *)
Definition times255 (mask2 : plane) : plane :=
  fmap (M := list) (fmap (M := list) (λ m, uint8 (m * 255))) mask2.

(** [cv2.split]: one plane per channel. *)
Definition cv_split (img : image) : plane * plane * plane :=
  (fmap (M := list) (fmap (M := list) blue) img,
   fmap (M := list) (fmap (M := list) green) img,
   fmap (M := list) (fmap (M := list) red) img).

(** [cv2.merge([b, g, r, alpha])]: four planes into one 4-channel array. *)
Definition merge_row (b g r a : list Z) : list bgra :=
  zip_with (λ bg ra, Bgra bg.1 bg.2 ra.1 ra.2) (zip b g) (zip r a).

Definition cv_merge (b g r a : plane) : image4 :=
  zip_with (λ bg ra, merge_row bg.1 bg.2 ra.1 ra.2) (zip b g) (zip r a).

(** The five statements in sequence.  The script only reaches them with a
    mask allocated as [np.zeros(img.shape[:2])], so the two arrays have
    the same shape. *)
Definition composite (img : image) (mask : plane) : image4 :=
  let mask2 := where_bg mask in
  let img_foreground := mul_newaxis img mask2 in
  let alpha := times255 mask2 in
  let '(b, g, r) := cv_split img_foreground in
  cv_merge b g r alpha.

(** The output cell, as the five statements compute it. *)
Definition merged_px (p : bgr) (m : Z) : bgra :=
  let m2 := uint8 (if (m =? GC_BGD) || (m =? GC_PR_BGD) then 0 else 1) in
  Bgra (uint8 (blue p * m2)) (uint8 (green p * m2)) (uint8 (red p * m2))
       (uint8 (m2 * 255)).

(** What one output pixel should be, by the label of its cell. *)
Definition composite_px (p : bgr) (m : Z) : bgra :=
  if is_foreground m then Bgra (blue p) (green p) (red p) 255
  else Bgra 0 0 0 0.

(** ** Exceptions and a state monad

    A statement either returns a value or raises; in both cases it leaves
    a state behind. *)

Inductive exn :=
| InvalidInput                (* the estimator rejects its arguments *)
| ConvergenceFailure          (* the estimator finds no finite cut *)
| OSError (msg : string)      (* a registry call fails *)
| TypeError.                  (* an array of the wrong kind *)

Inductive result (A : Type) :=
| Ok (a : A)
| Raise (e : exn).

Arguments Ok {A} a.
Arguments Raise {A} e.

Definition prog (S A : Type) : Type := S → result A * S.

Definition ret {S A} (a : A) : prog S A := λ s, (Ok a, s).

Definition raise {S A} (e : exn) : prog S A := λ s, (Raise e, s).

Definition bind {S A B} (m : prog S A) (k : A → prog S B) : prog S B :=
  λ s, match m s with
       | (Ok a, s') => k a s'
       | (Raise e, s') => (Raise e, s')
       end.

(** [try: body / except Exception as e: handler(e)] *)
Definition try_except {S A} (body : prog S A) (handler : exn → prog S A)
  : prog S A :=
  λ s, match body s with
       | (Ok a, s') => (Ok a, s')
       | (Raise e, s') => handler e s'
       end.

Notation "x <- m ;; k" := (bind m (λ x, k))
  (at level 100, m at next level, right associativity).
Notation "m ;; k" := (bind m (λ _, k))
  (at level 100, right associativity).

(** [for x in xs: body(x)] *)
Fixpoint for_each {S A} (xs : list A) (body : A → prog S unit) : prog S unit :=
  match xs with
  | [] => ret ()
  | x :: xs' => body x ;; for_each xs' body
  end.

(** A program that leaves one component of the state as it was, whether
    it returns or raises. *)
Definition keeps {S A B} (component : S → B) (m : prog S A) : Prop :=
  ∀ s, component (m s).2 = component s.

(** ** The alpha compositor, on a store of array objects

    The same five statements, with every array an object in a store: a
    name is bound to a freshly allocated array, and nothing is written to
    an array that already exists. *)

Inductive ndarray :=
| Plane (cells : plane)       (* h x w, uint8 *)
| Color (cells : image)       (* h x w x 3, uint8 *)
| Color4 (cells : image4).    (* h x w x 4, uint8 *)

Abbreviation heap := (gmap nat ndarray).

Definition new_array (a : ndarray) : prog heap nat :=
  λ h, let l := fresh (dom h) in (Ok l, <[l := a]> h).

Definition get_plane (l : nat) : prog heap plane :=
  λ h, match h !! l with
       | Some (Plane p) => (Ok p, h)
       | _ => (Raise TypeError, h)
       end.

Definition get_color (l : nat) : prog heap image :=
  λ h, match h !! l with
       | Some (Color c) => (Ok c, h)
       | _ => (Raise TypeError, h)
       end.

Definition composite_prog (img mask : nat) : prog heap nat :=
  (* mask2 = np.where(...).astype('uint8') *)
  m <- get_plane mask;;
  mask2 <- new_array (Plane (where_bg m));;
  (* img_foreground = img * mask2[:, :, np.newaxis] *)
  i <- get_color img;;
  m2 <- get_plane mask2;;
  img_foreground <- new_array (Color (mul_newaxis i m2));;
  (* alpha = (mask2 * 255).astype(np.uint8) *)
  m2 <- get_plane mask2;;
  alpha <- new_array (Plane (times255 m2));;
  (* b, g, r = cv2.split(img_foreground) *)
  f <- get_color img_foreground;;
  b <- new_array (Plane (cv_split f).1.1);;
  g <- new_array (Plane (cv_split f).1.2);;
  r <- new_array (Plane (cv_split f).2);;
  (* rgba = cv2.merge([b, g, r, alpha]) *)
  pb <- get_plane b;;
  pg <- get_plane g;;
  pr <- get_plane r;;
  pa <- get_plane alpha;;
  new_array (Color4 (cv_merge pb pg pr pa)).

(** ** The initialization rectangle

    [width * 0.05] is a product of IEEE doubles rounded to nearest even
    and [int] truncates it; both are computed here on binary64. *)

Definition float_of_int (n : Z) : spec_float := binary_normalize 53 1024 n 0 false.

(** The doubles nearest to 0.05 and to 0.1. *)
Definition float_0_05 : spec_float := S754_finite false 7205759403792794 (-57).
Definition float_0_1 : spec_float := S754_finite false 7205759403792794 (-56).

(** [int(f)]: truncation toward zero.  (Python raises on an infinity or a
    NaN; the products below are finite.) *)
Definition int_of_float (f : spec_float) : Z :=
  match f with
  | S754_finite s m e =>
      let q := if 0 <=? e then Z.shiftl (Zpos m) e else Z.shiftr (Zpos m) (- e) in
      if s then - q else q
  | _ => 0
  end.

(** [int(n * f)] *)
Definition int_mul (n : Z) (f : spec_float) : Z :=
  int_of_float (SFmul 53 1024 (float_of_int n) f).

(** A rectangle [(x, y, w, h)]: left column, top row, width, height. *)
Record rect := Rect { rx : Z; ry : Z; rw : Z; rh : Z }.

(** [rect = (max(1, int(width * 0.05)), max(1, int(height * 0.05)),
             width - int(width * 0.1), height - int(height * 0.1))] *)
Definition inset_rect (width height : Z) : rect :=
  Rect (Z.max 1 (int_mul width float_0_05))
       (Z.max 1 (int_mul height float_0_05))
       (width - int_mul width float_0_1)
       (height - int_mul height float_0_1).

(** The rectangle has positive width and height. *)
Definition rect_positive (r : rect) : bool := (0 <? rw r) && (0 <? rh r).

(** The rectangle does not reach outside a [width] x [height] image. *)
Definition rect_inside (width height : Z) (r : rect) : bool :=
  (0 <=? rx r) && (0 <=? ry r) &&
  (rx r + rw r <=? width) && (ry r + rh r <=? height).

(** The rectangle lies strictly within the image: a margin on every side. *)
Definition rect_strictly_inside (width height : Z) (r : rect) : bool :=
  (0 <? rx r) && (0 <? ry r) &&
  (rx r + rw r <? width) && (ry r + rh r <? height).

(** The invariant of the initialization rectangle (spec, data model). *)
Definition rect_invariant (width height : Z) (r : rect) : bool :=
  rect_strictly_inside width height r && rect_positive r.

(** ** What the script runs against

    The values and collaborators the script takes from its interpreter and
    its libraries.  Every definition and theorem below holds for any
    instance. *)

Inductive flavour := Posix | Nt.

Class Env := {
  (** the decoder behind [cv2.imread]: the pixels of a file's contents, or
      nothing when they are not an image *)
  decode : string → option image;
  (** the PNG encoder behind [cv2.imwrite] *)
  encode : image4 → string;
  (** whether a path of the file store can be written *)
  writable : gmap string string → string → bool;
  (** steps 2a-2d of the estimator: the mixture models, the graph and its
      minimum cut; [Some side] tells for every pixel (row, column) whether
      it is on the source side, [None] that no finite cut exists *)
  min_cut : image → plane → option (nat → nat → bool);
  (** whether [import winreg] succeeds *)
  winreg_available : bool;
  (** [sys.executable] *)
  sys_executable : string;
  (** [os.path.abspath(__file__)] *)
  script_path : string;
  (** [os.path.join(os.path.dirname(script_path), "background_remover.ico")] *)
  icon_path : string;
  (** which [os.path] is in use: [posixpath] or [ntpath] *)
  os_path : flavour;
  (** the text of [parser.print_help()] *)
  help_text : string;
}.

(** The state the script acts on. *)
Record world := World {
  files : gmap string string;                  (* path ↦ contents *)
  registry : gmap string (gmap string string); (* key path ↦ value name ↦ data *)
  stdout : list string;                        (* lines printed so far *)
}.

Definition set_files (f : gmap string string) (st : world) : world :=
  World f (registry st) (stdout st).

Definition set_registry (r : gmap string (gmap string string)) (st : world) : world :=
  World (files st) r (stdout st).

(** [print(line)] *)
Definition print (line : string) : prog world unit :=
  λ st, (Ok (), World (files st) (registry st) (stdout st ++ [line])).

(** Sample data: a 5 x 5 image, a 2 x 2 image with its checkerboard mask,
    and an environment for them. *)
Definition grey : bgr := Bgr 10 20 30.

Definition image_5x5 : image := replicate 5 (replicate 5 grey).

Definition image_2x2 : image :=
  [[Bgr 1 2 3; Bgr 4 5 6]; [Bgr 7 8 9; Bgr 250 251 252]].

Definition mask_2x2 : plane := [[GC_FGD; GC_BGD]; [GC_PR_BGD; GC_PR_FGD]].

Definition sample_heap : heap :=
  {[ 0%nat := Color image_2x2; 1%nat := Plane mask_2x2 ]}.

Definition image_20x20 : image := replicate 20 (replicate 20 grey).

Definition sample_env : Env := {|
  decode := λ c, if String.eqb c "5x5" then Some image_5x5
                 else if String.eqb c "20x20" then Some image_20x20 else None;
  encode := λ _, "png";
  writable := λ _ p, negb (String.prefix "/ro/" p);
  min_cut := λ _ _, Some (λ i j, Nat.even (i + j));
  winreg_available := true;
  sys_executable := "C:\Python\python.exe";
  script_path := "C:\tools\backgroundremover.pyw";
  icon_path := "C:\tools\background_remover.ico";
  os_path := Posix;
  help_text := "usage: backgroundremover.pyw [-h] [--register] [--unregister] [file]";
|}.

(** The same environment with a solver that never finds a finite cut. *)
Definition no_cut_env : Env := {|
  decode := @decode sample_env;
  encode := @encode sample_env;
  writable := @writable sample_env;
  min_cut := λ _ _, None;
  winreg_available := true;
  sys_executable := @sys_executable sample_env;
  script_path := @script_path sample_env;
  icon_path := @icon_path sample_env;
  os_path := Posix;
  help_text := @help_text sample_env;
|}.

Definition sample_world : world :=
  World {[ "/a/cat.jpg" := "20x20"; "/a/icon.jpg" := "5x5";
           "/a/bad.jpg" := "not an image"; "/ro/cat.jpg" := "20x20" ]}
        ∅ [].

Section program.
Context `{env : !Env}.

(** ** The segmentation estimator

    Modelled from the spec: the Segmentation Estimator (section 4.1).  The
    script calls it as [cv2.grabCut], whose code is not in the repository.
    The rectangle check, the initial labelling, the [k] rounds and the
    label update follow the spec's algorithm; the cut itself is [min_cut]. *)

(** Image Buffer must be non-empty: width ≥ 1, height ≥ 1. *)
Definition image_nonempty (img : image) : bool :=
  (1 <=? width img) && (1 <=? height img).

(** The pixel at row [i], column [j] is inside the rectangle. *)
Definition in_rect (r : rect) (i j : nat) : bool :=
  (rx r <=? Z.of_nat j) && (Z.of_nat j <? rx r + rw r) &&
  (ry r <=? Z.of_nat i) && (Z.of_nat i <? ry r + rh r).

(** Step 1: outside the rectangle definite background, inside probable
    foreground. *)
Definition init_mask (img : image) (r : rect) : plane :=
  imap (λ i row, imap (λ j _, if in_rect r i j then GC_PR_FGD else GC_BGD) row) img.

(** A definite label is hard-constrained. *)
Definition hard (m : Z) : bool := (m =? GC_BGD) || (m =? GC_FGD).

(** Step 2e: the update of the label mask from a cut. *)
Definition update_mask (side : nat → nat → bool) (mask : plane) : plane :=
  imap (λ i row, imap (λ j m,
    if hard m then m else if side i j then GC_PR_FGD else GC_PR_BGD) row) mask.

(** Step 2: [k] rounds; [n] counts the rounds already run. *)
Fixpoint refine (k : nat) (img : image) (mask : plane) (n : nat)
  : result (plane * nat) :=
  match k with
  | O => Ok (mask, n)
  | S k' =>
      match min_cut img mask with
      | None => Raise ConvergenceFailure
      | Some side => refine k' img (update_mask side mask) (S n)
      end
  end.

(** The estimator: the label mask and the number of rounds it ran. *)
Definition segment (img : image) (r : rect) (k : nat) : result (plane * nat) :=
  if image_nonempty img && rect_invariant (width img) (height img) r
  then refine k img (init_mask img r) 0
  else Raise InvalidInput.

(** [cv2.grabCut(img, mask, rect, bgdModel, fgdModel, iterCount,
    cv2.GC_INIT_WITH_RECT)]: in this mode the mask passed in is
    initialised from the rectangle, and the labels are left in it.  The two
    model arrays are scratch space the script never reads. *)
Definition cv_grabCut (img : image) (mask : plane) (r : rect) (iterCount : nat)
  : prog world plane :=
  match segment img r iterCount with
  | Ok (labels, _) => ret labels
  | Raise e => raise e
  end.

(** ** The image codec

    Modelled from the spec: the image decode/encode collaborator (section
    6), in the script [cv2.imread] and [cv2.imwrite].  Reading yields the
    decoded pixels or [None]; writing either stores the whole encoding
    under the path, replacing what was there, and returns [True], or
    stores nothing and returns [False]. *)

Definition cv_imread (path : string) : prog world (option image) :=
  λ st, (Ok (files st !! path ≫= decode), st).

Definition cv_imwrite (path : string) (rgba : image4) : prog world bool :=
  λ st, if writable (files st) path
        then (Ok true, set_files (<[path := encode rgba]> (files st)) st)
        else (Ok false, st).

(** [os.path.exists] *)
Definition os_path_exists (path : string) : prog world bool :=
  λ st, (Ok (bool_decide (is_Some (files st !! path))), st).

(** ** [remove_background] *)

(** [np.zeros(img.shape[:2], np.uint8)] *)
Definition np_zeros (img : image) : plane :=
  replicate (length img) (replicate (length (hd [] img)) 0).

Definition remove_background (input_path output_path : string) : prog world bool :=
  img <- cv_imread input_path;;
  match img with
  | None =>
      print ("Error: Could not load image '" +:+ input_path +:+ "'");;
      ret false
  | Some img =>
      let mask := np_zeros img in
      let rect := inset_rect (width img) (height img) in
      mask <- cv_grabCut img mask rect 5;;
      let rgba := composite img mask in
      ok <- cv_imwrite output_path rgba;;
      if ok : bool then ret true
      else
        print ("Error: Could not write image to '" +:+ output_path +:+ "'");;
        ret false
  end.

(** ** Strings and paths *)

(** [os.sep] and [os.altsep] *)
Definition sep : Ascii.ascii :=
  match os_path with Posix => "/"%char | Nt => ascii_of_nat 92 end.

Definition altsep : option Ascii.ascii :=
  match os_path with Posix => None | Nt => Some "/"%char end.

Definition dquote : string := String (ascii_of_nat 34) EmptyString.
Definition backslash : string := String (ascii_of_nat 92) EmptyString.

(** [s.replace(old, new)], for a non-empty [old]; [skip] counts the
    characters of a replaced occurrence still to pass. *)
Fixpoint replace_from (old new : string) (skip : nat) (s : string) : string :=
  match s with
  | EmptyString => EmptyString
  | String c s' =>
      match skip with
      | S n => replace_from old new n s'
      | O =>
          if String.prefix old s
          then new +:+ replace_from old new (String.length old - 1) s'
          else String c (replace_from old new 0 s')
      end
  end.

Definition str_replace (old new s : string) : string := replace_from old new 0 s.

(** [p.rfind(c)]: the index of the last [c] in [p], or -1. *)
Fixpoint rfind (c : Ascii.ascii) (p : string) : Z :=
  match p with
  | EmptyString => -1
  | String a p' =>
      let r := rfind c p' in
      if 0 <=? r then r + 1 else if Ascii.eqb a c then 0 else -1
  end.

(** [p[:n]] and [p[n:]] *)
Fixpoint str_take (n : nat) (p : string) : string :=
  match n, p with
  | S n', String a p' => String a (str_take n' p')
  | _, _ => EmptyString
  end.

Fixpoint str_drop (n : nat) (p : string) : string :=
  match n, p with
  | S n', String _ p' => str_drop n' p'
  | _, _ => p
  end.

(** The loop of [os.path.splitext] that skips leading dots:
    [while filenameIndex < dotIndex], with [todo = dotIndex - filenameIndex];
    true when it meets a character that is not a dot. *)
Fixpoint finds_non_dot (p : string) (filenameIndex todo : nat) : bool :=
  match todo with
  | O => false
  | S todo' =>
      match String.get filenameIndex p with
      | Some c =>
          if Ascii.eqb c "." then finds_non_dot p (S filenameIndex) todo'
          else true
      | None => true
      end
  end.

(** The index of the last separator of [p], or -1:
    [sepIndex = p.rfind(sep)], and with an [altsep]
    [sepIndex = max(sepIndex, p.rfind(altsep))]. *)
Definition last_sep (p : string) : Z :=
  match altsep with
  | Some a => Z.max (rfind sep p) (rfind a p)
  | None => rfind sep p
  end.

(** [os.path.splitext(p)], as [genericpath._splitext] computes it. *)
Definition splitext (p : string) : string * string :=
  let sepIndex := last_sep p in
  let dotIndex := rfind "." p in
  if (sepIndex <? dotIndex) &&
     finds_non_dot p (Z.to_nat (sepIndex + 1)) (Z.to_nat (dotIndex - (sepIndex + 1)))
  then (str_take (Z.to_nat dotIndex) p, str_drop (Z.to_nat dotIndex) p)
  else (p, EmptyString).

(** The part of a path up to and including its last separator: the
    directory the path names a file in. *)
Definition directory_of (p : string) : string :=
  str_take (Z.to_nat (last_sep p + 1)) p.

(** A string without a path separator. *)
Definition no_sep (s : string) : bool := last_sep s <? 0.

(** ** The registry

    Modelled from the spec: the store of association entries behind
    [winreg] (sections 6 and 9), keyed by the key path the script builds.
    [CreateKey] creates the key or opens the one that exists; [SetValueEx]
    sets one named value of an open key, replacing the old one;
    [DeleteKey] fails on a key that does not exist or has subkeys.  The
    store holds the keys the script names; the parent keys that [winreg]
    creates on the way to a new key are not represented. *)

Definition str_exn (e : exn) : string :=
  match e with
  | InvalidInput => "invalid input"
  | ConvergenceFailure => "no finite cut"
  | OSError msg => msg
  | TypeError => "wrong kind of array"
  end.

Definition CreateKey (path : string) : prog world string :=
  λ st, match registry st !! path with
        | Some _ => (Ok path, st)
        | None => (Ok path, set_registry (<[path := ∅]> (registry st)) st)
        end.

Definition SetValueEx (key name value : string) : prog world unit :=
  λ st, match registry st !! key with
        | Some values =>
            (Ok (), set_registry (<[key := <[name := value]> values]> (registry st)) st)
        | None => (Raise (OSError "[WinError 6] The handle is invalid"), st)
        end.

Definition CloseKey (key : string) : prog world unit := ret ().

Definition has_subkey (r : gmap string (gmap string string)) (path : string) : bool :=
  existsb (String.prefix (path +:+ backslash)) (elements (dom r)).

Definition DeleteKey (path : string) : prog world unit :=
  λ st, match registry st !! path with
        | None =>
            (Raise (OSError "[WinError 2] The system cannot find the file specified"), st)
        | Some _ =>
            if has_subkey (registry st) path
            then (Raise (OSError "[WinError 5] Access is denied"), st)
            else (Ok (), set_registry (delete path (registry st)) st)
        end.

(** ** [register_context_menu] and [unregister_context_menu] *)

Definition extensions : list string := [".jpg"; ".jpeg"; ".png"; ".webp"].

(** [rf"Software\Classes\SystemFileAssociations\{ext}\shell\RemoveBackground"] *)
Definition key_path (ext : string) : string :=
  "Software\Classes\SystemFileAssociations" +:+ backslash +:+ ext
    +:+ "\shell\RemoveBackground".

(** [key_path + r"\command"] *)
Definition command_path (ext : string) : string := key_path ext +:+ "\command".

Definition python_exe : string := str_replace "python.exe" "pythonw.exe" sys_executable.

(** [f'"{python_exe}" "{script_path}" "%1"'] *)
Definition command : string :=
  dquote +:+ python_exe +:+ dquote +:+ " " +:+ dquote +:+ script_path +:+ dquote
    +:+ " " +:+ dquote +:+ "%1" +:+ dquote.

(** The body of the loop of [register_context_menu]. *)
Definition register_ext (ext : string) : prog world unit :=
  try_except
    (key <- CreateKey (key_path ext);;
     SetValueEx key EmptyString "Remove Background";;
     SetValueEx key "Icon" icon_path;;
     CloseKey key;;
     cmd_key <- CreateKey (key_path ext +:+ "\command");;
     SetValueEx cmd_key EmptyString command;;
     CloseKey cmd_key;;
     print ("Registered context menu for " +:+ ext +:+ " files with icon."))
    (λ e, print ("Error registering for " +:+ ext +:+ ": " +:+ str_exn e)).

Definition register_context_menu : prog world unit :=
  if winreg_available then for_each extensions register_ext
  else print "winreg module is only available on Windows.".

(** The body of the loop of [unregister_context_menu]. *)
Definition unregister_ext (ext : string) : prog world unit :=
  try_except
    (DeleteKey (key_path ext +:+ "\command");;
     DeleteKey (key_path ext);;
     print ("Unregistered context menu for " +:+ ext +:+ " files."))
    (λ e, print ("Error unregistering for " +:+ ext +:+ ": " +:+ str_exn e)).

Definition unregister_context_menu : prog world unit :=
  if winreg_available then for_each extensions unregister_ext
  else print "winreg module is only available on Windows.".

(** *** The registration as one update of the registry

    Setting the value [name] of the key [key] to [data], the key created
    if need be: what [CreateKey] followed by [SetValueEx] amounts to. *)
Definition upsert (key name data : string) (r : gmap string (gmap string string))
  : gmap string (gmap string string) :=
  <[key := <[name := data]> (default ∅ (r !! key))]> r.

Definition upserts (l : list (string * string * string))
    (r : gmap string (gmap string string)) : gmap string (gmap string string) :=
  foldl (λ r t, upsert t.1.1 t.1.2 t.2 r) r l.

(** The values [register_context_menu] sets for one extension. *)
Definition entry_values (ext : string) : list (string * string * string) :=
  [(key_path ext, EmptyString, "Remove Background");
   (key_path ext, "Icon", icon_path);
   (command_path ext, EmptyString, command)].

(** The registry holds [data] as the value [name] of the key [key]. *)
Definition has_value (r : gmap string (gmap string string)) (key name data : string)
  : Prop :=
  ∃ values, r !! key = Some values ∧ values !! name = Some data.

(** ** [main] *)

(** The namespace [parser.parse_args()] returns. *)
Record args := Args {
  arg_register : bool;           (* --register *)
  arg_unregister : bool;         (* --unregister *)
  arg_file : option string;      (* file, nargs="?" *)
}.

(** [base + "_nobg.png"] with [base, _ = os.path.splitext(input_file)] *)
Definition output_file (input_file : string) : string :=
  (splitext input_file).1 +:+ "_nobg.png".

(** The branch [elif args.file:] of [main]. *)
Definition process_file (input_file : string) : prog world unit :=
  found <- os_path_exists input_file;;
  if negb found
  then print ("Error: File '" +:+ input_file +:+ "' does not exist.")
  else
    let output_file := output_file input_file in
    print ("Processing '" +:+ input_file +:+ "' -> '" +:+ output_file +:+ "'");;
    ok <- remove_background input_file output_file;;
    if ok : bool then print "Background removal complete."
    else print "Background removal failed.".

(** A diagnostic: a line that starts with [Error: ]. *)
Definition is_diagnostic (line : string) : bool := String.prefix "Error: " line.

(** [parser.print_help()] *)
Definition print_help : prog world unit := print help_text.

(** The truth value of [args.file]: [None] and the empty string are false. *)
Definition given (file : option string) : option string :=
  match file with
  | Some (String c s) => Some (String c s)
  | _ => None
  end.

(** [main], from the parsed arguments on (source lines 140-160).
    [parser.parse_args()] itself ends the process on [-h] and on
    arguments it cannot parse; that happens before these lines and is not
    part of the definition. *)
Definition main (a : args) : prog world unit :=
  if arg_register a then register_context_menu
  else if arg_unregister a then unregister_context_menu
  else match given (arg_file a) with
       | Some input_file => process_file input_file
       | None => print_help
       end.

(* ================================================================== *)
(** * Part II: properties                                              *)
(* ================================================================== *)

(** ** Cells of the arrays the compositor builds *)

Lemma at2_fmap {A B} (f : A → B) (a : grid A) (i j : nat) :
  at2 (fmap (M := list) (fmap (M := list) f) a) i j = f <$> at2 a i j.
Proof.
  unfold at2. rewrite list_lookup_fmap.
  destruct (a !! i) as [row|]; simpl; [apply list_lookup_fmap | done].
Qed.

Lemma at2_zip_with {A B C} (f : A → B → C) (a : grid A) (b : grid B) (i j : nat) :
  at2 (zip_with (zip_with f) a b) i j
  = at2 a i j ≫= λ x, at2 b i j ≫= λ y, Some (f x y).
Proof.
  unfold at2. rewrite lookup_zip_with.
  destruct (a !! i) as [ra|]; simpl; [|done].
  destruct (b !! i) as [rb|]; simpl.
  - apply lookup_zip_with.
  - by destruct (ra !! j).
Qed.

Lemma at2_zip {A B} (a : grid A) (b : grid B) (i j : nat) :
  at2 (zip_with zip a b) i j
  = at2 a i j ≫= λ x, at2 b i j ≫= λ y, Some (x, y).
Proof. apply (at2_zip_with pair). Qed.

Lemma cv_merge_zip (b g r a : plane) :
  cv_merge b g r a
  = zip_with (zip_with (λ bg ra, Bgra bg.1 bg.2 ra.1 ra.2))
      (zip_with zip b g) (zip_with zip r a).
Proof.
  unfold cv_merge, merge_row.
  revert g r a. induction b as [|b0 b IH]; intros [|g0 g] r a; try done.
  destruct r as [|r0 r]; [done|]. destruct a as [|a0 a]; [done|].
  simpl. f_equal. apply IH.
Qed.

Lemma at2_cv_merge (b g r a : plane) (i j : nat) :
  at2 (cv_merge b g r a) i j
  = at2 b i j ≫= λ x, at2 g i j ≫= λ y, at2 r i j ≫= λ z, at2 a i j ≫= λ t,
    Some (Bgra x y z t).
Proof.
  rewrite cv_merge_zip, at2_zip_with, !at2_zip.
  destruct (at2 b i j), (at2 g i j), (at2 r i j), (at2 a i j); done.
Qed.

Lemma at2_composite (img : image) (mask : plane) (i j : nat) :
  at2 (composite img mask) i j
  = at2 img i j ≫= λ p, at2 mask i j ≫= λ m, Some (merged_px p m).
Proof.
  unfold composite, cv_split, mul_newaxis, times255, where_bg. cbv beta iota zeta.
  rewrite at2_cv_merge, !at2_fmap, !at2_zip_with, !at2_fmap.
  destruct (at2 img i j) as [p|], (at2 mask i j) as [m|]; done.
Qed.

Lemma shape_at2 {A B} (a : grid A) (b : grid B) (i j : nat) (x : A) :
  shape a = shape b → at2 a i j = Some x → is_Some (at2 b i j).
Proof.
  unfold shape, at2. intros Hs Hx.
  destruct (a !! i) as [ra|] eqn:Ha; simpl in Hx; [|done].
  assert (Hl : (length <$> a) !! i = Some (length ra)) by by rewrite list_lookup_fmap, Ha.
  rewrite Hs, list_lookup_fmap in Hl.
  destruct (b !! i) as [rb|]; simpl in *; [|done].
  apply lookup_lt_is_Some. injection Hl as ->. by eapply lookup_lt_Some.
Qed.

Lemma forallb_at2 {A} (f : A → bool) (a : grid A) (i j : nat) (x : A) :
  forallb (forallb f) a = true → at2 a i j = Some x → f x = true.
Proof.
  unfold at2. intros Hf Hx.
  destruct (a !! i) as [row|] eqn:Ha; simpl in Hx; [|done].
  rewrite forallb_forall in Hf.
  assert (Hr : forallb f row = true).
  { apply Hf, list_elem_of_In, list_elem_of_lookup. eauto. }
  rewrite forallb_forall in Hr.
  apply Hr, list_elem_of_In, list_elem_of_lookup. eauto.
Qed.

Lemma shape_composite (img : image) (mask : plane) :
  shape img = shape mask → shape (composite img mask) = shape img.
Proof.
  unfold composite, cv_split, mul_newaxis, times255, where_bg, cv_merge, merge_row, shape.
  revert mask. induction img as [|row img IH]; intros [|mrow mask] Hs; try done.
  simpl in *. injection Hs as Hl Hs. f_equal; [|by apply IH].
  repeat rewrite ?length_zip_with, ?length_fmap. lia.
Qed.

Lemma uint8_id (z : Z) : is_uint8 z = true → uint8 z = z.
Proof.
  unfold is_uint8, uint8. intros Hu. apply andb_prop in Hu as [H1 H2].
  apply Z.mod_small. lia.
Qed.

Lemma merged_px_label (p : bgr) (m : Z) :
  is_pixel p = true → is_label m = true → merged_px p m = composite_px p m.
Proof.
  unfold is_pixel, is_label, merged_px, composite_px, is_foreground.
  intros Hp Hm.
  apply andb_prop in Hp as [Hp Hr]. apply andb_prop in Hp as [Hb Hg].
  apply uint8_id in Hb, Hg, Hr.
  unfold GC_BGD, GC_FGD, GC_PR_BGD, GC_PR_FGD in *.
  repeat (apply orb_prop in Hm as [Hm|Hm]); apply Z.eqb_eq in Hm; subst m; simpl;
    rewrite ?Z.mul_1_r, ?Z.mul_0_r, ?Hb, ?Hg, ?Hr; reflexivity.
Qed.

(** C1. For an image buffer and a label mask of the same dimensions, every
    output pixel of the alpha compositor has alpha 255 and the original
    colour channels when its label is probable or definite foreground,
    and alpha 0 with colour channels (0,0,0) otherwise; the output has
    the dimensions of the input. *)
Theorem composite_correct (img : image) (mask : plane) :
  shape img = shape mask → is_image img = true → is_mask mask = true →
  shape (composite img mask) = shape img ∧
  ∀ (i j : nat) (p : bgr), at2 img i j = Some p →
    ∃ (m : Z) (out : bgra),
      at2 mask i j = Some m ∧ at2 (composite img mask) i j = Some out ∧
      ((m = GC_PR_FGD ∨ m = GC_FGD) →
         out = Bgra (blue p) (green p) (red p) 255) ∧
      (¬ (m = GC_PR_FGD ∨ m = GC_FGD) → out = Bgra 0 0 0 0).
Proof.
  intros Hs Hi Hm. split; [by apply shape_composite|].
  intros i j p Hp.
  destruct (shape_at2 img mask i j p Hs Hp) as [m Hmij].
  exists m, (composite_px p m). split; [done|].
  split.
  - rewrite at2_composite, Hp, Hmij. simpl. f_equal.
    apply merged_px_label; by eapply forallb_at2.
  - unfold composite_px, is_foreground. split.
    + intros [-> | ->]; reflexivity.
    + intros Hn.
      destruct (m =? GC_FGD) eqn:E1; [apply Z.eqb_eq in E1; tauto|].
      destruct (m =? GC_PR_FGD) eqn:E2; [apply Z.eqb_eq in E2; tauto|].
      reflexivity.
Qed.

Lemma composite_correct_witness :
  shape (composite image_2x2 mask_2x2) = shape image_2x2 ∧
  ∀ (i j : nat) (p : bgr), at2 image_2x2 i j = Some p →
    ∃ (m : Z) (out : bgra),
      at2 mask_2x2 i j = Some m ∧ at2 (composite image_2x2 mask_2x2) i j = Some out ∧
      ((m = GC_PR_FGD ∨ m = GC_FGD) →
         out = Bgra (blue p) (green p) (red p) 255) ∧
      (¬ (m = GC_PR_FGD ∨ m = GC_FGD) → out = Bgra 0 0 0 0).
Proof. apply (composite_correct image_2x2 mask_2x2); reflexivity. Defined.

(** A cell that holds no label is composited as foreground: [np.where]
    only singles out the two background labels. *)
Lemma merged_px_other (p : bgr) (m : Z) :
  is_pixel p = true → m ≠ GC_BGD → m ≠ GC_PR_BGD →
  merged_px p m = Bgra (blue p) (green p) (red p) 255.
Proof.
  unfold is_pixel, merged_px. intros Hp H0 H2.
  apply andb_prop in Hp as [Hp Hr]. apply andb_prop in Hp as [Hb Hg].
  apply uint8_id in Hb, Hg, Hr.
  destruct (m =? GC_BGD) eqn:E0; [apply Z.eqb_eq in E0; done|].
  destruct (m =? GC_PR_BGD) eqn:E2; [apply Z.eqb_eq in E2; done|].
  simpl. rewrite ?Z.mul_1_r, Hb, Hg, Hr. reflexivity.
Qed.

(** ** The compositor on the store of arrays *)

Lemma new_array_fresh (a : ndarray) (h : heap) :
  ∃ l, new_array a h = (Ok l, <[l := a]> h) ∧ h !! l = None.
Proof.
  exists (fresh (dom h)). split; [done|].
  apply not_elem_of_dom, is_fresh.
Qed.

Lemma bind_ok {S A B} (m : prog S A) (k : A → prog S B) (s s' : S) (a : A) :
  m s = (Ok a, s') → bind m k s = k a s'.
Proof. unfold bind. by intros ->. Qed.

Lemma bind_raise {S A B} (m : prog S A) (k : A → prog S B) (s s' : S) (e : exn) :
  m s = (Raise e, s') → bind m k s = (Raise e, s').
Proof. unfold bind. by intros ->. Qed.

Lemma get_plane_ok (l : nat) (p : plane) (h : heap) :
  h !! l = Some (Plane p) → get_plane l h = (Ok p, h).
Proof. unfold get_plane. by intros ->. Qed.

Lemma get_color_ok (l : nat) (c : image) (h : heap) :
  h !! l = Some (Color c) → get_color l h = (Ok c, h).
Proof. unfold get_color. by intros ->. Qed.

(** A statement that allocates: name the new array [l], the store after
    it [h'], and record that the old store is part of the new one ([S])
    and what the new array holds ([L]). *)
Ltac alloc l h' S L :=
  match goal with
  | |- context [bind (new_array ?a) _ ?h] =>
      let E := fresh "E" in
      let F := fresh "F" in
      destruct (new_array_fresh a h) as (l & E & F);
      rewrite (bind_ok _ _ _ _ _ E); clear E;
      set (h' := <[l := a]> h) in *;
      assert (S : h ⊆ h') by (by apply insert_subseteq);
      assert (L : h' !! l = Some a) by apply lookup_insert_eq
  end.

(** A statement that reads an array whose contents [Hl] gives. *)
Ltac read Hl :=
  first [ rewrite (bind_ok _ _ _ _ _ (get_plane_ok _ _ _ Hl))
        | rewrite (bind_ok _ _ _ _ _ (get_color_ok _ _ _ Hl)) ].

(** One run: it succeeds, binds the result to a new array whose contents
    are [composite] of the contents of its two arguments, and leaves every
    array of the store as it was. *)
Lemma composite_prog_run (h : heap) (img_l mask_l : nat) (img : image) (mask : plane) :
  h !! img_l = Some (Color img) → h !! mask_l = Some (Plane mask) →
  ∃ (out : nat) (h' : heap),
    composite_prog img_l mask_l h = (Ok out, h') ∧
    h !! out = None ∧
    h' !! out = Some (Color4 (composite img mask)) ∧
    h ⊆ h'.
Proof.
  intros Hi Hm. unfold composite_prog.
  (* mask2 *)
  read Hm. alloc l1 h1 S1 L1.
  (* img_foreground *)
  read (lookup_weaken _ _ _ _ Hi S1). read L1. alloc l2 h2 S2 L2.
  (* alpha *)
  read (lookup_weaken _ _ _ _ L1 S2). alloc l3 h3 S3 L3.
  (* b, g, r *)
  read (lookup_weaken _ _ _ _ L2 S3).
  alloc l4 h4 S4 L4. alloc l5 h5 S5 L5. alloc l6 h6 S6 L6.
  (* rgba *)
  assert (S46 : h4 ⊆ h6) by (by etrans).
  assert (S36 : h3 ⊆ h6) by (by etrans).
  read (lookup_weaken _ _ _ _ L4 S46). read (lookup_weaken _ _ _ _ L5 S6).
  read L6. read (lookup_weaken _ _ _ _ L3 S36).
  match goal with |- context [new_array ?a h6] =>
    destruct (new_array_fresh a h6) as (l7 & E7 & F7) end.
  exists l7, (<[l7 := Color4 (composite img mask)]> h6).
  assert (S06 : h ⊆ h6) by (do 3 (etrans; [eassumption|]); done).
  split; [exact E7|]. split.
  - destruct (h !! l7) eqn:E; [|done].
    apply (lookup_weaken _ _ _ _ E) in S06. congruence.
  - split; [apply lookup_insert_eq|].
    etrans; [exact S06|]. by apply insert_subseteq.
Qed.

(** C8. The alpha compositor is a pure, deterministic function of its two
    inputs: two runs on the same image buffer and label mask both succeed
    and leave byte-identical output buffers, which depend on the contents
    of the two inputs only, and no array that existed before a run is
    changed by it. *)
Theorem composite_prog_pure (h : heap) (img_l mask_l : nat) (img : image) (mask : plane) :
  h !! img_l = Some (Color img) → h !! mask_l = Some (Plane mask) →
  ∃ (out1 out2 : nat) (h1 h2 : heap),
    composite_prog img_l mask_l h = (Ok out1, h1) ∧
    composite_prog img_l mask_l h1 = (Ok out2, h2) ∧
    h1 !! out1 = Some (Color4 (composite img mask)) ∧
    h2 !! out2 = Some (Color4 (composite img mask)) ∧
    h ⊆ h1 ∧ h1 ⊆ h2.
Proof.
  intros Hi Hm.
  destruct (composite_prog_run h img_l mask_l img mask Hi Hm) as (o1 & h1 & R1 & _ & O1 & S1).
  destruct (composite_prog_run h1 img_l mask_l img mask
              (lookup_weaken _ _ _ _ Hi S1) (lookup_weaken _ _ _ _ Hm S1))
    as (o2 & h2 & R2 & _ & O2 & S2).
  exists o1, o2, h1, h2. done.
Qed.

Lemma composite_prog_pure_witness :
  ∃ (out1 out2 : nat) (h1 h2 : heap),
    composite_prog 0 1 sample_heap = (Ok out1, h1) ∧
    composite_prog 0 1 h1 = (Ok out2, h2) ∧
    h1 !! out1 = Some (Color4 (composite image_2x2 mask_2x2)) ∧
    h2 !! out2 = Some (Color4 (composite image_2x2 mask_2x2)) ∧
    sample_heap ⊆ h1 ∧ h1 ⊆ h2.
Proof.
  apply (composite_prog_pure sample_heap 0%nat 1%nat image_2x2 mask_2x2); reflexivity.
Defined.

(** ** The initialization rectangle *)

(** C3. On a 5 x 5 image the rectangle [remove_background] builds is
    (1, 1, 5, 5): its width and height are positive, but its right and
    bottom edges lie one pixel outside the image. *)
Theorem inset_rect_5x5_outside :
  width image_5x5 = 5 ∧ height image_5x5 = 5 ∧
  inset_rect (width image_5x5) (height image_5x5) = Rect 1 1 5 5 ∧
  rect_positive (Rect 1 1 5 5) = true ∧
  rect_inside 5 5 (Rect 1 1 5 5) = false ∧
  rect_strictly_inside 5 5 (Rect 1 1 5 5) = false.
Proof. vm_compute. done. Qed.

(** The same along one axis, for every length up to 4096: the side of the
    rectangle is positive; below 10 it runs past the far edge by one
    pixel, from 10 to 19 it ends on the far edge, and from 20 on there is
    a margin on both sides. *)
Lemma inset_positive_upto_4096 :
  forallb (λ n, 0 <? n - int_mul n float_0_1) (seqZ 1 4096) = true.
Proof. vm_compute. reflexivity. Qed.

Lemma inset_outside_below_10 :
  forallb (λ n, Z.max 1 (int_mul n float_0_05) + (n - int_mul n float_0_1) =? n + 1)
    (seqZ 1 9) = true.
Proof. vm_compute. reflexivity. Qed.

Lemma inset_on_edge_10_to_19 :
  forallb (λ n, Z.max 1 (int_mul n float_0_05) + (n - int_mul n float_0_1) =? n)
    (seqZ 10 10) = true.
Proof. vm_compute. reflexivity. Qed.

Lemma inset_margin_20_to_4096 :
  forallb (λ n, (0 <? Z.max 1 (int_mul n float_0_05)) &&
                (Z.max 1 (int_mul n float_0_05) + (n - int_mul n float_0_1) <? n))
    (seqZ 20 4077) = true.
Proof. vm_compute. reflexivity. Qed.

(** On these lengths the two products are the integer quotients by 20 and
    by 10: rounding the double product never crosses an integer. *)
Lemma int_mul_quotients_upto_4096 :
  forallb (λ n, (int_mul n float_0_05 =? n / 20) && (int_mul n float_0_1 =? n / 10))
    (seqZ 0 4097) = true.
Proof. vm_compute. reflexivity. Qed.

(** ** The segmentation estimator *)

Lemma at2_imap {A B} (g : nat → nat → A → B) (a : grid A) (i j : nat) :
  at2 (imap (λ i row, imap (g i) row) a) i j = g i j <$> at2 a i j.
Proof.
  unfold at2. rewrite list_lookup_imap.
  destruct (a !! i) as [row|]; simpl; [apply list_lookup_imap | done].
Qed.

Lemma shape_imap {A B} (g : nat → nat → A → B) (a : grid A) :
  shape (imap (λ i row, imap (g i) row) a) = shape a.
Proof.
  unfold shape. apply list_eq. intros i.
  rewrite !list_lookup_fmap, list_lookup_imap.
  destruct (a !! i) as [row|]; simpl; [|done]. by rewrite length_imap.
Qed.

Lemma at2_forallb {A} (f : A → bool) (a : grid A) :
  (∀ i j x, at2 a i j = Some x → f x = true) → forallb (forallb f) a = true.
Proof.
  intros Hf. apply forallb_forall. intros row Hrow.
  apply list_elem_of_In, list_elem_of_lookup in Hrow as [i Hi].
  apply forallb_forall. intros x Hx.
  apply list_elem_of_In, list_elem_of_lookup in Hx as [j Hj].
  apply (Hf i j). unfold at2. by rewrite Hi.
Qed.

Lemma init_mask_shape (img : image) (r : rect) : shape (init_mask img r) = shape img.
Proof. apply shape_imap. Qed.

Lemma init_mask_labels (img : image) (r : rect) : is_mask (init_mask img r) = true.
Proof.
  apply at2_forallb. intros i j x. unfold init_mask.
  rewrite (at2_imap (λ i j _, if in_rect r i j then GC_PR_FGD else GC_BGD)).
  destruct (at2 img i j); simpl; [|done].
  intros [= <-]. by destruct (in_rect r i j).
Qed.

Lemma update_mask_shape (side : nat → nat → bool) (mask : plane) :
  shape (update_mask side mask) = shape mask.
Proof. apply shape_imap. Qed.

Lemma update_mask_labels (side : nat → nat → bool) (mask : plane) :
  is_mask mask = true → is_mask (update_mask side mask) = true.
Proof.
  intros Hm. apply at2_forallb. intros i j x. unfold update_mask.
  rewrite (at2_imap (λ i j m,
    if hard m then m else if side i j then GC_PR_FGD else GC_PR_BGD)).
  destruct (at2 mask i j) as [m|] eqn:E; simpl; [|done].
  intros [= <-]. destruct (hard m); [by eapply forallb_at2|].
  by destruct (side i j).
Qed.

(** The rounds: either [k] more rounds are run, and the mask keeps its
    shape and holds labels, or one of them finds no finite cut. *)
Lemma refine_rounds_or_no_cut (img : image) (k : nat) :
  ∀ (mask : plane) (n : nat), is_mask mask = true →
    (∃ labels, refine k img mask n = Ok (labels, (n + k)%nat) ∧
               shape labels = shape mask ∧ is_mask labels = true)
    ∨ (refine k img mask n = Raise ConvergenceFailure ∧
       ∃ m, shape m = shape mask ∧ min_cut img m = None).
Proof.
  induction k as [|k IH]; intros mask n Hm; simpl.
  - left. exists mask. by rewrite Nat.add_0_r.
  - destruct (min_cut img mask) as [side|] eqn:E.
    + destruct (IH (update_mask side mask) (S n))
        as [(labels & R & Sh & L) | (R & m & Sh & Hnone)];
        [by apply update_mask_labels | |].
      * left. exists labels. rewrite R, Sh, update_mask_shape.
        split; [|done]. do 2 f_equal. lia.
      * right. split; [done|]. exists m. by rewrite Sh, update_mask_shape.
    + right. split; [done|]. by exists mask.
Qed.

(** C2. For every initialization rectangle whose width or height is 0, or
    whose bounds exceed the image, the segmentation estimator fails with
    [InvalidInput] and runs no round. *)
Theorem segment_invalid_rect (img : image) (r : rect) (k : nat) :
  rw r = 0 ∨ rh r = 0 ∨ rect_inside (width img) (height img) r = false →
  segment img r k = Raise InvalidInput.
Proof.
  intros Hbad. unfold segment.
  assert (E : rect_invariant (width img) (height img) r = false).
  { unfold rect_invariant, rect_strictly_inside, rect_positive, rect_inside in *.
    destruct Hbad as [Hw | [Hh | Hin]].
    - rewrite Hw. simpl. by rewrite andb_false_r.
    - rewrite Hh. simpl. by rewrite !andb_false_r.
    - destruct (0 <? rx r) eqn:E1, (0 <? ry r) eqn:E2,
        (rx r + rw r <? width img) eqn:E3, (ry r + rh r <? height img) eqn:E4;
        simpl; try done.
      exfalso. apply Z.ltb_lt in E1, E2, E3, E4.
      repeat (apply andb_false_iff in Hin as [Hin | Hin]); apply Z.leb_gt in Hin; lia. }
  rewrite E. by rewrite andb_false_r.
Qed.


(** ** [remove_background], case by case *)

(** The input cannot be read or decoded. *)
Lemma remove_background_undecodable (input output : string) (st : world) :
  files st !! input ≫= decode = None →
  remove_background input output st
  = (Ok false,
     World (files st) (registry st)
       (stdout st ++ ["Error: Could not load image '" +:+ input +:+ "'"])).
Proof.
  intros Hd. unfold remove_background, bind, cv_imread. by rewrite Hd.
Qed.

(** The estimator raises: the exception leaves [remove_background]. *)
Lemma remove_background_estimator_raises (input output : string) (st : world)
    (img : image) (e : exn) :
  files st !! input ≫= decode = Some img →
  segment img (inset_rect (width img) (height img)) 5 = Raise e →
  remove_background input output st = (Raise e, st).
Proof.
  intros Hd Hs. unfold remove_background, bind, cv_imread, cv_grabCut.
  by rewrite Hd, Hs.
Qed.

(** The output is written. *)
Lemma remove_background_written (input output : string) (st : world)
    (img : image) (labels : plane) (n : nat) :
  files st !! input ≫= decode = Some img →
  segment img (inset_rect (width img) (height img)) 5 = Ok (labels, n) →
  writable (files st) output = true →
  remove_background input output st
  = (Ok true, set_files (<[output := encode (composite img labels)]> (files st)) st).
Proof.
  intros Hd Hs Hw.
  unfold remove_background, bind, cv_imread, cv_grabCut, cv_imwrite, ret.
  by rewrite Hd, Hs, Hw.
Qed.

(** The output cannot be written. *)
Lemma remove_background_unwritable (input output : string) (st : world)
    (img : image) (labels : plane) (n : nat) :
  files st !! input ≫= decode = Some img →
  segment img (inset_rect (width img) (height img)) 5 = Ok (labels, n) →
  writable (files st) output = false →
  remove_background input output st
  = (Ok false,
     World (files st) (registry st)
       (stdout st ++ ["Error: Could not write image to '" +:+ output +:+ "'"])).
Proof.
  intros Hd Hs Hw.
  unfold remove_background, bind, cv_imread, cv_grabCut, cv_imwrite, ret.
  by rewrite Hd, Hs, Hw.
Qed.

(** The estimator is always asked for five rounds. *)
Lemma remove_background_five_rounds (img : image) (r : rect) (labels : plane) (n : nat) :
  segment img r 5 = Ok (labels, n) → n = 5%nat.
Proof.
  unfold segment. destruct (_ && _); [|done]. simpl.
  repeat (destruct (min_cut _ _); [|done]). by intros [= _ <-].
Qed.

(** C6. If the input image cannot be decoded, [remove_background] returns
    [False] and writes no output file; on every run the file store is
    left either unchanged or with the whole encoded output stored under
    the output path, the latter exactly when [True] is returned. *)
Theorem remove_background_all_or_nothing (input output : string) (st : world) :
  ∃ (res : result bool) (st' : world),
    remove_background input output st = (res, st') ∧
    match files st !! input ≫= decode with
    | None => res = Ok false ∧ files st' = files st
    | Some img =>
        (∃ labels, res = Ok true ∧
                   files st' = <[output := encode (composite img labels)]> (files st))
        ∨ (res ≠ Ok true ∧ files st' = files st)
    end.
Proof.
  destruct (files st !! input ≫= decode) as [img|] eqn:Hd.
  - destruct (segment img (inset_rect (width img) (height img)) 5) as [[labels n]|e] eqn:Hs.
    + destruct (writable (files st) output) eqn:Hw.
      * eexists _, _. split; [by eapply remove_background_written|].
        left. by exists labels.
      * eexists _, _. split; [by eapply remove_background_unwritable|].
        right. done.
    + eexists _, _. split; [by eapply remove_background_estimator_raises|].
      right. done.
  - eexists _, _. split; [by apply remove_background_undecodable|]. done.
Qed.

(** ** [main] *)

Lemma process_file_missing (input : string) (st : world) :
  files st !! input = None →
  process_file input st
  = (Ok (), World (files st) (registry st)
              (stdout st ++ ["Error: File '" +:+ input +:+ "' does not exist."])).
Proof.
  intros Hf. unfold process_file, bind, os_path_exists.
  rewrite Hf. rewrite bool_decide_eq_false_2; [done|]. by intros [? ?].
Qed.

Lemma process_file_found (input : string) (st : world) :
  is_Some (files st !! input) →
  process_file input st
  = (print ("Processing '" +:+ input +:+ "' -> '" +:+ output_file input +:+ "'");;
     ok <- remove_background input (output_file input);;
     if ok : bool then print "Background removal complete."
     else print "Background removal failed.") st.
Proof.
  intros Hf. unfold process_file at 1, bind at 1, os_path_exists.
  by rewrite bool_decide_eq_true_2.
Qed.

(** C4. In the file-processing mode, when the input file is missing,
    unreadable or undecodable, or the output cannot be written, [main]
    prints a diagnostic, returns normally (no exception reaches the
    process level) and leaves the file store as it was. *)
Theorem main_reports_failure (a : args) (input : string) (st : world) :
  arg_register a = false → arg_unregister a = false →
  given (arg_file a) = Some input →
  files st !! input ≫= decode = None
  ∨ (∃ img labels n,
       files st !! input ≫= decode = Some img ∧
       segment img (inset_rect (width img) (height img)) 5 = Ok (labels, n) ∧
       writable (files st) (output_file input) = false) →
  ∃ (st' : world) (lines : list string) (diagnostic : string),
    main a st = (Ok (), st') ∧
    stdout st' = stdout st ++ lines ∧
    diagnostic ∈ lines ∧ is_diagnostic diagnostic = true ∧
    files st' = files st.
Proof.
  intros Hr Hu Hg Hfail. unfold main. rewrite Hr, Hu, Hg.
  destruct (files st !! input) as [c|] eqn:Hf.
  - rewrite process_file_found by (by rewrite Hf).
    set (line := "Processing '" +:+ input +:+ "' -> '" +:+ output_file input +:+ "'").
    unfold bind at 1, print at 1.
    set (st1 := World _ _ _).
    assert (Hf1 : files st1 !! input = Some c) by done.
    destruct Hfail as [Hd | (img & labels & n & Hd & Hs & Hw)].
    + erewrite (bind_ok _ _ st1);
        [|apply remove_background_undecodable; by rewrite Hf1].
      eexists _, [line; _; _], _. unfold print. simpl.
      split; [reflexivity|]. simpl. split; [by rewrite <- !app_assoc|].
      split; [apply list_elem_of_further, list_elem_of_here|].
      split; [reflexivity | done].
    + erewrite (bind_ok _ _ st1);
        [|eapply remove_background_unwritable; by rewrite ?Hf1].
      eexists _, [line; _; _], _. unfold print. simpl.
      split; [reflexivity|]. simpl. split; [by rewrite <- !app_assoc|].
      split; [apply list_elem_of_further, list_elem_of_here|].
      split; [reflexivity | done].
  - rewrite process_file_missing by done.
    eexists _, [_], _. split; [done|]. split; [done|].
    split; [apply list_elem_of_here|]. split; [reflexivity | done].
Qed.

(** An exception of the estimator is not caught anywhere: it leaves
    [main], after the line that announces the processing. *)
Lemma main_estimator_exception (a : args) (input : string) (st : world)
    (img : image) (e : exn) :
  arg_register a = false → arg_unregister a = false →
  given (arg_file a) = Some input →
  files st !! input ≫= decode = Some img →
  segment img (inset_rect (width img) (height img)) 5 = Raise e →
  ∃ st', main a st = (Raise e, st') ∧ files st' = files st.
Proof.
  intros Hr Hu Hg Hd Hs. unfold main. rewrite Hr, Hu, Hg.
  destruct (files st !! input) as [c|] eqn:Hf; [|done].
  rewrite process_file_found by (by rewrite Hf).
  unfold bind at 1, print at 1. set (st1 := World _ _ _).
  erewrite (bind_raise _ _ st1);
    [|eapply remove_background_estimator_raises; [|exact Hs]; simpl; by rewrite Hf].
  by eexists.
Qed.

(** *** What the two halves of the script leave alone *)

Lemma keeps_ret {A B} (c : world → B) (a : A) : keeps c (ret a).
Proof. done. Qed.

Lemma keeps_bind {A A' B} (c : world → B) (m : prog world A) (k : A → prog world A') :
  keeps c m → (∀ a, keeps c (k a)) → keeps c (bind m k).
Proof.
  intros Hm Hk st. unfold bind. specialize (Hm st).
  destruct (m st) as [[a|e] st1]; simpl in *; [|done].
  by rewrite Hk.
Qed.

Lemma keeps_try_except {A B} (c : world → B) (m : prog world A) (h : exn → prog world A) :
  keeps c m → (∀ e, keeps c (h e)) → keeps c (try_except m h).
Proof.
  intros Hm Hh st. unfold try_except. specialize (Hm st).
  destruct (m st) as [[a|e] st1]; simpl in *; [done|].
  by rewrite Hh.
Qed.

Lemma keeps_for_each {A B} (c : world → B) (xs : list A) (body : A → prog world unit) :
  (∀ x, keeps c (body x)) → keeps c (for_each xs body).
Proof.
  intros Hb. induction xs as [|x xs IH]; simpl; [done|].
  apply keeps_bind; [apply Hb | done].
Qed.

Lemma keeps_files_print (line : string) : keeps files (print line).
Proof. done. Qed.

Lemma keeps_registry_print (line : string) : keeps registry (print line).
Proof. done. Qed.

Lemma keeps_files_CreateKey (path : string) : keeps files (CreateKey path).
Proof. intros st. unfold CreateKey. by destruct (registry st !! path). Qed.

Lemma keeps_files_SetValueEx (key name value : string) :
  keeps files (SetValueEx key name value).
Proof. intros st. unfold SetValueEx. by destruct (registry st !! key). Qed.

Lemma keeps_files_DeleteKey (path : string) : keeps files (DeleteKey path).
Proof.
  intros st. unfold DeleteKey.
  destruct (registry st !! path); [|done]. by destruct (has_subkey _ _).
Qed.

Create HintDb frame discriminated.

#[local] Hint Resolve keeps_ret keeps_bind keeps_try_except keeps_for_each
  keeps_files_print keeps_registry_print keeps_files_CreateKey
  keeps_files_SetValueEx keeps_files_DeleteKey : frame.

Lemma keeps_files_register : keeps files register_context_menu.
Proof.
  unfold register_context_menu, register_ext, CloseKey.
  destruct winreg_available; eauto 20 with frame.
Qed.

Lemma keeps_files_unregister : keeps files unregister_context_menu.
Proof.
  unfold unregister_context_menu, unregister_ext.
  destruct winreg_available; eauto 20 with frame.
Qed.

Lemma keeps_registry_remove_background (input output : string) :
  keeps registry (remove_background input output).
Proof.
  unfold remove_background. apply keeps_bind; [done|]. intros [img|].
  - apply keeps_bind.
    { intros st. unfold cv_grabCut. by destruct (segment _ _ _) as [[? ?]|]. }
    intros labels. apply keeps_bind.
    { intros st. unfold cv_imwrite. by destruct (writable _ _). }
    intros [|]; [done|]. apply keeps_bind; [apply keeps_registry_print | done].
  - apply keeps_bind; [apply keeps_registry_print | done].
Qed.

Lemma keeps_registry_process_file (input : string) : keeps registry (process_file input).
Proof.
  unfold process_file. apply keeps_bind; [done|]. intros found.
  destruct (negb found); [apply keeps_registry_print|].
  apply keeps_bind; [apply keeps_registry_print|]. intros _.
  apply keeps_bind; [apply keeps_registry_remove_background|].
  intros [|]; apply keeps_registry_print.
Qed.


(** ** Paths *)

Lemma rfind_lower (c : Ascii.ascii) (p : string) : -1 ≤ rfind c p.
Proof.
  induction p as [|a p IH]; simpl; [lia|].
  destruct (0 <=? rfind c p) eqn:E; [apply Z.leb_le in E; lia|].
  destruct (Ascii.eqb a c); lia.
Qed.

Lemma rfind_upper (c : Ascii.ascii) (p : string) :
  rfind c p < Z.of_nat (String.length p).
Proof.
  induction p as [|a p IH]; simpl String.length; simpl rfind; [lia|].
  destruct (0 <=? rfind c p) eqn:E; [lia|].
  destruct (Ascii.eqb a c); lia.
Qed.

Lemma append_nil (q : string) : EmptyString +:+ q = q.
Proof. reflexivity. Qed.

Lemma append_cons (a : Ascii.ascii) (p q : string) :
  String a p +:+ q = String a (p +:+ q).
Proof. reflexivity. Qed.

Lemma rfind_app (c : Ascii.ascii) (p q : string) :
  rfind c (p +:+ q)
  = if 0 <=? rfind c q then Z.of_nat (String.length p) + rfind c q else rfind c p.
Proof.
  induction p as [|a p IH]; rewrite ?append_nil, ?append_cons; simpl.
  - destruct (0 <=? rfind c q) eqn:E; [done|].
    apply Z.leb_gt in E. pose proof (rfind_lower c q). lia.
  - rewrite IH. destruct (0 <=? rfind c q) eqn:E; [|done].
    apply Z.leb_le in E.
    destruct (0 <=? Z.of_nat (String.length p) + rfind c q) eqn:E'; [lia|].
    apply Z.leb_gt in E'. lia.
Qed.

Lemma rfind_app_absent (c : Ascii.ascii) (p q : string) :
  rfind c q < 0 → rfind c (p +:+ q) = rfind c p.
Proof.
  intros Hq. rewrite rfind_app.
  destruct (0 <=? rfind c q) eqn:E; [apply Z.leb_le in E; lia | done].
Qed.

Lemma last_sep_lower (p : string) : -1 ≤ last_sep p.
Proof.
  unfold last_sep. pose proof (rfind_lower sep p).
  destruct altsep as [a|]; [|done]. pose proof (rfind_lower a p). lia.
Qed.

Lemma last_sep_upper (p : string) : last_sep p < Z.of_nat (String.length p).
Proof.
  unfold last_sep. pose proof (rfind_upper sep p).
  destruct altsep as [a|]; [|done]. pose proof (rfind_upper a p). lia.
Qed.

Lemma last_sep_app_no_sep (p q : string) :
  no_sep q = true → last_sep (p +:+ q) = last_sep p.
Proof.
  unfold no_sep, last_sep. intros Hq. apply Z.ltb_lt in Hq.
  pose proof (rfind_lower sep q).
  destruct altsep as [a|].
  - pose proof (rfind_lower a q).
    rewrite !rfind_app_absent by lia. done.
  - by rewrite rfind_app_absent.
Qed.

Lemma str_take_app (p q : string) : str_take (String.length p) (p +:+ q) = p.
Proof.
  induction p as [|a p IH]; rewrite ?append_nil, ?append_cons; simpl;
    [by destruct q | by rewrite IH].
Qed.

Lemma str_drop_app (p q : string) : str_drop (String.length p) (p +:+ q) = q.
Proof.
  induction p as [|a p IH]; rewrite ?append_nil, ?append_cons; simpl;
    [by destruct q | done].
Qed.

Lemma str_take_app_le (n : nat) (p q : string) :
  (n ≤ String.length p)%nat → str_take n (p +:+ q) = str_take n p.
Proof.
  revert n. induction p as [|a p IH]; intros [|n] Hn;
    rewrite ?append_nil, ?append_cons; simpl in *; try done; try lia.
  rewrite IH; [done | lia].
Qed.

Lemma get_app_length (p q : string) (c : Ascii.ascii) :
  String.get (String.length p) (p +:+ String c q) = Some c.
Proof. induction p as [|a p IH]; rewrite ?append_nil, ?append_cons; simpl; done. Qed.

Lemma length_app (p q : string) :
  String.length (p +:+ q) = (String.length p + String.length q)%nat.
Proof.
  induction p as [|a p IH]; rewrite ?append_nil, ?append_cons; simpl;
    [done | by rewrite IH].
Qed.

Lemma append_assoc (p q r : string) : (p +:+ q) +:+ r = p +:+ q +:+ r.
Proof.
  induction p as [|a p IH]; rewrite ?append_nil, ?append_cons;
    [done | by rewrite IH].
Qed.

(** The loop stops at a character that is not a dot when there is one in
    the range it scans. *)
Lemma finds_non_dot_at (p : string) (todo start k : nat) (c : Ascii.ascii) :
  (start ≤ k < start + todo)%nat → String.get k p = Some c → c ≠ "."%char →
  finds_non_dot p start todo = true.
Proof.
  revert start. induction todo as [|todo IH]; intros start Hk Hg Hc; [lia|].
  simpl. destruct (String.get start p) as [a|] eqn:Ha; [|done].
  destruct (Ascii.eqb_spec a "."); [|done].
  apply IH; [|done..].
  destruct (decide (k = start)) as [->|]; [congruence | lia].
Qed.

Lemma no_sep_dot : no_sep "." = true.
Proof. unfold no_sep, last_sep, altsep, sep. by destruct os_path. Qed.

Lemma no_sep_suffix : no_sep "_nobg.png" = true.
Proof. unfold no_sep, last_sep, altsep, sep. by destruct os_path. Qed.

(** [splitext] on a file name with an extension: [dir] is anything up to
    the file name, [c] a character of the name that is not a dot, [stem]
    the rest of the name and [ext] the extension after the last dot. *)
Lemma splitext_name (dir stem ext : string) (c : Ascii.ascii) :
  c ≠ "."%char → no_sep (String c stem) = true → no_sep ext = true →
  rfind "." ext < 0 →
  splitext (dir +:+ String c stem +:+ "." +:+ ext)
  = (dir +:+ String c stem, "." +:+ ext).
Proof.
  intros Hc Hstem Hext Hdot. unfold splitext.
  set (name := dir +:+ String c stem).
  assert (Ep : dir +:+ String c stem +:+ "." +:+ ext = name +:+ "." +:+ ext)
    by (unfold name; by rewrite append_assoc).
  rewrite Ep.
  assert (Es : last_sep (name +:+ "." +:+ ext) = last_sep dir).
  { rewrite <- (append_assoc name), last_sep_app_no_sep by done.
    rewrite last_sep_app_no_sep by apply no_sep_dot.
    unfold name. by rewrite last_sep_app_no_sep. }
  assert (Ed : rfind "." (name +:+ "." +:+ ext) = Z.of_nat (String.length name)).
  { rewrite rfind_app, append_cons, append_nil. simpl rfind.
    destruct (0 <=? rfind "." ext) eqn:E; [apply Z.leb_le in E; lia|].
    simpl. lia. }
  rewrite Es, Ed.
  pose proof (last_sep_lower dir). pose proof (last_sep_upper dir).
  assert (Hlen : String.length name = (String.length dir + S (String.length stem))%nat)
    by (unfold name; by rewrite length_app).
  assert (Elt : (last_sep dir <? Z.of_nat (String.length name)) = true)
    by (apply Z.ltb_lt; lia).
  rewrite Elt. simpl andb.
  rewrite (finds_non_dot_at _ _ _ (String.length dir) c); [| |by rewrite <- Ep; apply get_app_length|done].
  - rewrite Nat2Z.id. by rewrite str_take_app, str_drop_app.
  - lia.
Qed.

Lemma no_sep_app (p q : string) :
  no_sep p = true → no_sep q = true → no_sep (p +:+ q) = true.
Proof. intros Hp Hq. unfold no_sep. by rewrite last_sep_app_no_sep. Qed.

Lemma last_sep_name (dir name rest : string) :
  no_sep name = true → no_sep rest = true →
  last_sep (dir +:+ name +:+ rest) = last_sep dir.
Proof.
  intros Hn Hr. rewrite <- append_assoc.
  by rewrite !last_sep_app_no_sep.
Qed.

Lemma directory_of_name (dir name rest : string) :
  no_sep name = true → no_sep rest = true →
  directory_of (dir +:+ name +:+ rest) = directory_of dir.
Proof.
  intros Hn Hr. unfold directory_of. rewrite last_sep_name by done.
  apply str_take_app_le.
  pose proof (last_sep_lower dir). pose proof (last_sep_upper dir). lia.
Qed.

Lemma given_name (dir rest : string) (c : Ascii.ascii) :
  given (Some (dir +:+ String c rest)) = Some (dir +:+ String c rest).
Proof. by destruct dir. Qed.

(** C7. A processed file named X.ext, with X = [dir +:+ String c stem] a
    path whose file name holds a character [c] other than a dot and
    [ext] an extension, gets its output under the name X_nobg.png, in the
    directory of the input; a successful run stores the encoded result
    under that name whatever the file store held there before, and prints
    the same two lines in both cases. *)
Theorem output_file_next_to_input (dir stem ext : string) (c : Ascii.ascii) :
  c ≠ "."%char → no_sep (String c stem) = true → no_sep ext = true →
  rfind "." ext < 0 →
  let input := dir +:+ String c stem +:+ "." +:+ ext in
  let output := dir +:+ String c stem +:+ "_nobg.png" in
  output_file input = output ∧
  directory_of output = directory_of input ∧
  ∀ (st : world) (img : image) (labels : plane) (n : nat),
    files st !! input ≫= decode = Some img →
    segment img (inset_rect (width img) (height img)) 5 = Ok (labels, n) →
    writable (files st) output = true →
    ∃ st', main (Args false false (Some input)) st = (Ok (), st') ∧
           files st' = <[output := encode (composite img labels)]> (files st) ∧
           stdout st' = stdout st ++
             ["Processing '" +:+ input +:+ "' -> '" +:+ output +:+ "'";
              "Background removal complete."].
Proof.
  intros Hc Hstem Hext Hdot input output.
  assert (Eo : output_file input = output).
  { unfold output_file, input. rewrite splitext_name by done.
    simpl fst. unfold output. by rewrite append_assoc. }
  split; [exact Eo|]. split.
  { unfold input, output.
    rewrite !directory_of_name; auto using no_sep_suffix, no_sep_app, no_sep_dot. }
  intros st img labels n Hd Hs Hw.
  unfold main. cbn [arg_register arg_unregister arg_file].
  assert (Hg : given (Some input) = Some input)
    by (unfold input; rewrite append_cons; apply given_name).
  rewrite Hg.
  assert (Hf : is_Some (files st !! input)).
  { destruct (files st !! input); [by eexists | done]. }
  rewrite process_file_found by done. rewrite Eo.
  unfold bind at 1, print at 1. set (st1 := World _ _ _).
  erewrite (bind_ok _ _ st1); [|by eapply remove_background_written].
  eexists. split; [reflexivity|]. simpl.
  split; [done|]. by rewrite <- app_assoc.
Qed.

(** ** The registry *)

Lemma upsert_has (r : gmap string (gmap string string)) (key name data : string) :
  has_value (upsert key name data r) key name data.
Proof.
  eexists. unfold upsert. rewrite lookup_insert_eq. split; [done|].
  apply lookup_insert_eq.
Qed.

Lemma upsert_has_other (r : gmap string (gmap string string))
    (key name data key' name' data' : string) :
  (key, name) ≠ (key', name') → has_value r key' name' data' →
  has_value (upsert key name data r) key' name' data'.
Proof.
  intros Hne (values & Hk & Hn). unfold upsert, has_value.
  destruct (decide (key = key')) as [->|Hkey].
  - rewrite lookup_insert_eq, Hk. eexists. split; [done|]. simpl.
    rewrite lookup_insert_ne; [done | congruence].
  - rewrite lookup_insert_ne by done. eauto.
Qed.

Lemma upsert_id (r : gmap string (gmap string string)) (key name data : string) :
  has_value r key name data → upsert key name data r = r.
Proof.
  intros (values & Hk & Hn). unfold upsert. rewrite Hk. simpl.
  rewrite (insert_id values) by done. by apply insert_id.
Qed.

Lemma upsert_dom (r : gmap string (gmap string string)) (key name data : string) :
  dom (upsert key name data r) = {[key]} ∪ dom r.
Proof. unfold upsert. apply dom_insert_L. Qed.

Lemma upserts_app (l1 l2 : list (string * string * string))
    (r : gmap string (gmap string string)) :
  upserts (l1 ++ l2) r = upserts l2 (upserts l1 r).
Proof. unfold upserts. apply foldl_app. Qed.

Lemma upserts_has_kept (l : list (string * string * string))
    (r : gmap string (gmap string string)) (key name data : string) :
  (key, name) ∉ fst <$> l → has_value r key name data →
  has_value (upserts l r) key name data.
Proof.
  revert r. induction l as [|[[k n] d] l IH]; intros r Hnot Hr; [done|].
  simpl. rewrite fmap_cons, not_elem_of_cons in Hnot. destruct Hnot as [Hne Hnot].
  apply IH; [done|]. apply upsert_has_other; [|done]. simpl in Hne. congruence.
Qed.

(** After the updates, every value of the list is in the registry, when no
    value is set twice. *)
Lemma upserts_has (l : list (string * string * string))
    (r : gmap string (gmap string string)) (key name data : string) :
  NoDup (fst <$> l) → (key, name, data) ∈ l →
  has_value (upserts l r) key name data.
Proof.
  revert r. induction l as [|[[k n] d] l IH]; intros r Hnd Hin.
  - by apply elem_of_nil in Hin.
  - rewrite fmap_cons in Hnd. apply NoDup_cons in Hnd as [Hhead Hnd].
    apply elem_of_cons in Hin as [[= -> -> ->] | Hin]; simpl.
    + apply upserts_has_kept; [done | apply upsert_has].
    + by apply IH.
Qed.

(** Updates whose values are all there change nothing. *)
Lemma upserts_id (l : list (string * string * string))
    (r : gmap string (gmap string string)) :
  (∀ key name data, (key, name, data) ∈ l → has_value r key name data) →
  upserts l r = r.
Proof.
  induction l as [|[[k n] d] l IH]; intros Hall; [done|].
  simpl. rewrite upsert_id by (apply Hall, list_elem_of_here).
  apply IH. intros key name data Hin. apply Hall. by apply list_elem_of_further.
Qed.

Lemma upserts_idempotent (l : list (string * string * string))
    (r : gmap string (gmap string string)) :
  NoDup (fst <$> l) → upserts l (upserts l r) = upserts l r.
Proof. intros Hnd. apply upserts_id. intros. by apply upserts_has. Qed.

Lemma upserts_dom (l : list (string * string * string))
    (r : gmap string (gmap string string)) :
  dom (upserts l r) = dom r ∪ list_to_set ((λ t, t.1.1) <$> l).
Proof.
  revert r. induction l as [|[[k n] d] l IH]; intros r; simpl.
  - by rewrite (right_id_L ∅ (∪)).
  - rewrite IH, upsert_dom.
    by rewrite (comm_L (∪) {[k]} (dom r)), (assoc_L (∪)).
Qed.

(** One round of the loop of [register_context_menu]: it returns, with
    the three values set and one line printed. *)
Lemma register_ext_run (ext : string) (st : world) :
  register_ext ext st
  = (Ok (),
     World (files st) (upserts (entry_values ext) (registry st))
       (stdout st ++ ["Registered context menu for " +:+ ext +:+ " files with icon."])).
Proof.
  unfold register_ext, try_except, bind, CreateKey, SetValueEx, CloseKey, ret, print,
    command_path.
  set (k := key_path ext). set (kc := k +:+ "\command").
  assert (Hne : k ≠ kc).
  { unfold kc. intros E. apply (f_equal String.length) in E.
    rewrite length_app in E. simpl in E. lia. }
  destruct st as [f r out]. simpl.
  unfold entry_values, upserts, upsert, command_path. fold k. fold kc. simpl.
  destruct (r !! k) as [v|] eqn:Ek; simpl; rewrite ?Ek; simpl;
    rewrite ?lookup_insert_eq; simpl; rewrite ?lookup_insert_eq; simpl;
    rewrite ?insert_insert_eq; rewrite !lookup_insert_ne by done;
    destruct (r !! kc) as [vc|] eqn:Ekc; simpl;
    rewrite ?lookup_insert_eq, ?Ekc; simpl;
    rewrite ?lookup_insert_ne by done; rewrite ?Ekc; simpl;
    rewrite ?lookup_insert_eq; simpl; rewrite ?insert_insert_eq; reflexivity.
Qed.

(** The loop over a list of extensions. *)
Lemma register_loop_run (exts : list string) (st : world) :
  ∃ lines,
    for_each exts register_ext st
    = (Ok (),
       World (files st) (upserts (exts ≫= entry_values) (registry st))
         (stdout st ++ lines)).
Proof.
  revert st. induction exts as [|ext exts IH]; intros st.
  - exists []. destruct st. simpl. unfold ret. by rewrite app_nil_r.
  - simpl for_each. rewrite (bind_ok _ _ _ _ _ (register_ext_run ext st)).
    destruct (IH (World (files st) (upserts (entry_values ext) (registry st))
                    (stdout st ++ ["Registered context menu for " +:+ ext
                                     +:+ " files with icon."])))
      as (lines & ->).
    eexists (_ :: lines). cbn [files registry stdout].
    rewrite bind_cons, upserts_app, <- app_assoc. reflexivity.
Qed.

(** The keys of the values set for the four extensions are pairwise
    different. *)
Lemma entry_values_NoDup : NoDup (fst <$> (extensions ≫= entry_values)).
Proof.
  apply (bool_decide_unpack _). vm_compute. exact I.
Qed.

(** One round of the loop of [unregister_context_menu] never raises. *)
Lemma unregister_ext_returns (ext : string) (st : world) :
  (unregister_ext ext st).1 = Ok ().
Proof.
  unfold unregister_ext, try_except.
  destruct (bind _ _ st) as [[[]|e] st'] eqn:E; done.
Qed.

Lemma for_each_returns {A} (xs : list A) (body : A → prog world unit) (st : world) :
  (∀ x s, (body x s).1 = Ok ()) → (for_each xs body st).1 = Ok ().
Proof.
  intros Hb. revert st. induction xs as [|x xs IH]; intros st; simpl; [done|].
  unfold bind. specialize (Hb x st).
  destruct (body x st) as [[[]|e] st']; simpl in Hb; [apply IH | done].
Qed.

(** With no entry for the extension, the round prints the error of the
    first [DeleteKey] and changes nothing else. *)
Lemma unregister_ext_clean (ext : string) (st : world) :
  registry st !! command_path ext = None →
  unregister_ext ext st
  = (Ok (),
     World (files st) (registry st)
       (stdout st ++ ["Error unregistering for " +:+ ext
          +:+ ": [WinError 2] The system cannot find the file specified"])).
Proof.
  intros Hc. unfold unregister_ext, try_except, bind, DeleteKey.
  unfold command_path in Hc. by rewrite Hc.
Qed.

Lemma unregister_loop_clean (exts : list string) (st : world) :
  (∀ ext, ext ∈ exts → registry st !! command_path ext = None) →
  ∃ lines,
    for_each exts unregister_ext st
    = (Ok (), World (files st) (registry st) (stdout st ++ lines)).
Proof.
  revert st. induction exts as [|ext exts IH]; intros st Hclean.
  - exists []. destruct st. simpl. unfold ret. by rewrite app_nil_r.
  - simpl for_each.
    rewrite (bind_ok _ _ _ _ _ (unregister_ext_clean ext st
                                   (Hclean ext (list_elem_of_here _ _)))).
    edestruct IH as (lines & ->).
    { intros e He. simpl. apply Hclean. by apply list_elem_of_further. }
    eexists (_ :: lines). simpl. by rewrite <- app_assoc.
Qed.


(* ------------------------------------------------------------------ *)
(** ** Further properties of the compositor and of [remove_background] *)

Lemma merged_px_background (p : bgr) (m : Z) :
  (m =? GC_BGD) || (m =? GC_PR_BGD) = true → merged_px p m = Bgra 0 0 0 0.
Proof.
  intros Hm. unfold merged_px. rewrite Hm. simpl.
  by rewrite !Z.mul_0_r.
Qed.

(** X1. Whatever the cells of the mask hold, a pixel of the result is
    either blank and fully transparent (the cell is one of the two
    background labels) or the original pixel, fully opaque: [np.where]
    leaves no third case, and every pixel of the result comes from a
    pixel of the image and a cell of the mask at the same place. *)
Theorem composite_blank_or_opaque (img : image) (mask : plane) (i j : nat) (out : bgra) :
  is_image img = true →
  at2 (composite img mask) i j = Some out →
  ∃ (p : bgr) (m : Z),
    at2 img i j = Some p ∧ at2 mask i j = Some m ∧
    if (m =? GC_BGD) || (m =? GC_PR_BGD) then out = Bgra 0 0 0 0
    else out = Bgra (blue p) (green p) (red p) 255.
Proof.
  intros Himg Hout. rewrite at2_composite in Hout.
  destruct (at2 img i j) as [p|] eqn:Hp; [|done].
  destruct (at2 mask i j) as [m|] eqn:Hm; [|done].
  simpl in Hout. injection Hout as <-.
  exists p, m. split; [done|]. split; [done|].
  destruct ((m =? GC_BGD) || (m =? GC_PR_BGD)) eqn:E.
  - by apply merged_px_background.
  - apply orb_false_elim in E as [E0 E2].
    apply merged_px_other; [by eapply forallb_at2 | by apply Z.eqb_neq..].
Qed.

(** X2. [remove_background] never touches the registry.  When it returns
    [False] it has printed exactly one line, a diagnostic, and left the
    file store alone; when it returns [True] or lets an exception
    through it has printed nothing. *)
Theorem remove_background_diagnostics (input output : string) (st : world) :
  ∃ (res : result bool) (st' : world),
    remove_background input output st = (res, st') ∧
    registry st' = registry st ∧
    match res with
    | Ok false =>
        ∃ diagnostic, stdout st' = stdout st ++ [diagnostic] ∧
                      is_diagnostic diagnostic = true ∧ files st' = files st
    | _ => stdout st' = stdout st
    end.
Proof.
  destruct (files st !! input ≫= decode) as [img|] eqn:Hd.
  - destruct (segment img (inset_rect (width img) (height img)) 5) as [[labels n]|e] eqn:Hs.
    + destruct (writable (files st) output) eqn:Hw.
      * eexists _, _. split; [by eapply remove_background_written|]. done.
      * eexists _, _. split; [by eapply remove_background_unwritable|].
        split; [done|]. eexists. split; [done|]. split; reflexivity.
    + eexists _, _. split; [by eapply remove_background_estimator_raises|]. done.
  - eexists _, _. split; [by apply remove_background_undecodable|].
    split; [done|]. eexists. split; [done|]. split; reflexivity.
Qed.

(** ** Further properties of [main] *)

Lemma register_returns (st : world) : (register_context_menu st).1 = Ok ().
Proof.
  unfold register_context_menu. destruct winreg_available; [|done].
  by destruct (register_loop_run extensions st) as (lines & ->).
Qed.

Lemma unregister_returns (st : world) : (unregister_context_menu st).1 = Ok ().
Proof.
  unfold unregister_context_menu. destruct winreg_available; [|done].
  apply for_each_returns, unregister_ext_returns.
Qed.


(** ** Further properties of the registry functions *)

Lemma for_each_one_line {A} (xs : list A) (body : A → prog world unit) (st : world) :
  (∀ x s, ∃ line, (body x s).1 = Ok () ∧ stdout (body x s).2 = stdout s ++ [line]) →
  ∃ lines, stdout (for_each xs body st).2 = stdout st ++ lines ∧
           length lines = length xs.
Proof.
  intros Hb. revert st. induction xs as [|x xs IH]; intros st.
  - exists []. simpl. by rewrite app_nil_r.
  - simpl for_each. unfold bind. destruct (Hb x st) as (line & Hok & Hout).
    destruct (body x st) as [[[]|e] st1]; simpl in *; [|done].
    destruct (IH st1) as (lines & -> & Hlen).
    exists (line :: lines). rewrite Hout, <- app_assoc. simpl. by rewrite Hlen.
Qed.

Lemma unregister_ext_one_line (ext : string) (st : world) :
  ∃ line, (unregister_ext ext st).1 = Ok () ∧
          stdout (unregister_ext ext st).2 = stdout st ++ [line].
Proof.
  unfold unregister_ext, try_except, bind, DeleteKey, print.
  destruct (registry st !! (key_path ext +:+ "\command")); simpl; [|by eexists].
  destruct (has_subkey (registry st) _); simpl; [by eexists|].
  destruct (delete _ _ !! key_path ext); simpl; [|by eexists].
  destruct (has_subkey _ (key_path ext)); simpl; by eexists.
Qed.

(** X9. Each of the two registry functions reports once per extension
    whatever the registry holds: it prints exactly four lines (one line
    when [winreg] cannot be imported), returns normally and leaves the
    file store as it was. *)
Theorem registry_functions_report (st : world) :
  ∃ (registered unregistered : list string),
    register_context_menu st
    = (Ok (), World (files st) (registry (register_context_menu st).2)
                (stdout st ++ registered)) ∧
    unregister_context_menu st
    = (Ok (), World (files st) (registry (unregister_context_menu st).2)
                (stdout st ++ unregistered)) ∧
    length registered = (if winreg_available then 4 else 1)%nat ∧
    length unregistered = (if winreg_available then 4 else 1)%nat.
Proof.
  assert (Hworld : ∀ (m : prog world unit) lines n,
    (m st).1 = Ok () → files (m st).2 = files st →
    stdout (m st).2 = stdout st ++ lines → length lines = n →
    m st = (Ok (), World (files st) (registry (m st).2) (stdout st ++ lines))
    ∧ length lines = n).
  { intros m lines n Hok Hf Hout Hlen.
    destruct (m st) as [r [f reg out]]; simpl in *. by subst. }
  assert (Hr : ∃ lines, stdout (register_context_menu st).2 = stdout st ++ lines ∧
                        length lines = (if winreg_available then 4 else 1)%nat).
  { unfold register_context_menu. destruct winreg_available; [|by eexists [_]].
    apply for_each_one_line. intros ext s. rewrite register_ext_run. by eexists. }
  assert (Hu : ∃ lines, stdout (unregister_context_menu st).2 = stdout st ++ lines ∧
                        length lines = (if winreg_available then 4 else 1)%nat).
  { unfold unregister_context_menu. destruct winreg_available; [|by eexists [_]].
    apply for_each_one_line, unregister_ext_one_line. }
  destruct Hr as (lr & Hr & Lr), Hu as (lu & Hu & Lu).
  exists lr, lu.
  destruct (Hworld register_context_menu lr _ (register_returns st)
              (keeps_files_register st) Hr Lr) as [E1 _].
  destruct (Hworld unregister_context_menu lu _ (unregister_returns st)
              (keeps_files_unregister st) Hu Lu) as [E2 _].
  done.
Qed.

(** ** Further properties of the output path *)

Lemma append_empty_r (p : string) : p +:+ EmptyString = p.
Proof. induction p as [|a p IH]; rewrite ?append_nil, ?append_cons; [done | by rewrite IH]. Qed.

Lemma str_take_drop (n : nat) (p : string) : str_take n p +:+ str_drop n p = p.
Proof.
  revert n. induction p as [|a p IH]; intros [|n]; simpl;
    rewrite ?append_nil, ?append_cons; try done.
  by rewrite IH.
Qed.

Lemma rfind_get (c : Ascii.ascii) (p : string) :
  0 ≤ rfind c p → String.get (Z.to_nat (rfind c p)) p = Some c.
Proof.
  induction p as [|a p IH]; simpl; [lia|].
  destruct (0 <=? rfind c p) eqn:E.
  - apply Z.leb_le in E. intros _.
    replace (Z.to_nat (rfind c p + 1)) with (S (Z.to_nat (rfind c p))) by lia.
    simpl. by apply IH.
  - destruct (Ascii.eqb_spec a c) as [->|]; [done | lia].
Qed.

Lemma str_drop_get (n : nat) (p : string) (c : Ascii.ascii) :
  String.get n p = Some c → ∃ rest, str_drop n p = String c rest.
Proof.
  revert n. induction p as [|a p IH]; intros [|n] Hg; simpl in *; try done.
  - injection Hg as ->. by eexists.
  - by apply IH.
Qed.

Lemma rfind_drop (c : Ascii.ascii) (p : string) (d : nat) :
  rfind c p < Z.of_nat d → rfind c (str_drop d p) < 0.
Proof.
  revert d. induction p as [|a p IH]; intros [|d] Hd; simpl in *; try lia.
  apply IH. destruct (0 <=? rfind c p) eqn:E; [lia|].
  apply Z.leb_gt in E. lia.
Qed.

Lemma no_sep_drop (p : string) (d : nat) :
  last_sep p < Z.of_nat d → no_sep (str_drop d p) = true.
Proof.
  unfold no_sep, last_sep. intros Hd. apply Z.ltb_lt.
  destruct altsep as [a|].
  - pose proof (rfind_drop sep p d). pose proof (rfind_drop a p d). lia.
  - by apply rfind_drop.
Qed.

Lemma no_sep_empty : no_sep EmptyString = true.
Proof. unfold no_sep, last_sep. by destruct altsep. Qed.

(** What [splitext] returns: the two parts make up the path, and the
    second is empty or starts at a dot and holds no separator. *)
Lemma splitext_parts (p : string) :
  ∃ base ext, splitext p = (base, ext) ∧ base +:+ ext = p ∧
              no_sep ext = true ∧ (ext = EmptyString ∨ ∃ e, ext = String "." e).
Proof.
  unfold splitext.
  destruct ((last_sep p <? rfind "." p) && _) eqn:E.
  - apply andb_prop in E as [E _]. apply Z.ltb_lt in E.
    pose proof (last_sep_lower p).
    eexists _, _. split; [done|]. split; [apply str_take_drop|]. split.
    + apply no_sep_drop. lia.
    + right. apply str_drop_get, rfind_get. lia.
  - exists p, EmptyString. split; [done|]. split; [apply append_empty_r|].
    split; [apply no_sep_empty | by left].
Qed.

Lemma directory_of_app_no_sep (p q : string) :
  no_sep q = true → directory_of (p +:+ q) = directory_of p.
Proof.
  intros Hq. unfold directory_of. rewrite last_sep_app_no_sep by done.
  apply str_take_app_le.
  pose proof (last_sep_lower p). pose proof (last_sep_upper p). lia.
Qed.

Lemma output_file_parts (input : string) :
  ∃ base ext,
    input = base +:+ ext ∧
    (ext = EmptyString ∨ ∃ e, ext = String "." e) ∧ no_sep ext = true ∧
    output_file input = base +:+ "_nobg.png".
Proof.
  destruct (splitext_parts input) as (base & ext & Hs & Hp & Hn & Hext).
  exists base, ext. unfold output_file. by rewrite Hs.
Qed.

Lemma output_file_differs (input : string) : output_file input ≠ input.
Proof.
  destruct (output_file_parts input) as (base & ext & -> & Hext & _ & ->).
  intros Heq. apply (inj (String.append base)) in Heq.
  destruct Hext as [-> | (e & ->)]; discriminate.
Qed.

Lemma output_file_directory (input : string) :
  directory_of (output_file input) = directory_of input.
Proof.
  destruct (output_file_parts input) as (base & ext & Hin & _ & Hn & ->).
  rewrite Hin. rewrite !directory_of_app_no_sep; auto using no_sep_suffix.
Qed.

(** X3. For every input path, the output path is the path without its
    extension followed by [_nobg.png]; it is never the input path itself
    and it lies in the directory of the input. *)
Theorem output_file_beside_input (input : string) :
  (∃ base ext,
     input = base +:+ ext ∧
     (ext = EmptyString ∨ ∃ e, ext = String "." e) ∧ no_sep ext = true ∧
     output_file input = base +:+ "_nobg.png") ∧
  output_file input ≠ input ∧
  directory_of (output_file input) = directory_of input.
Proof.
  split; [apply output_file_parts|].
  split; [apply output_file_differs | apply output_file_directory].
Qed.

(** ** Further properties of the file store *)

Lemma remove_background_files_other (input output p : string) (st : world) :
  p ≠ output → files (remove_background input output st).2 !! p = files st !! p.
Proof.
  intros Hp.
  destruct (files st !! input ≫= decode) as [img|] eqn:Hd.
  - destruct (segment img (inset_rect (width img) (height img)) 5) as [[labels n]|e] eqn:Hs.
    + destruct (writable (files st) output) eqn:Hw.
      * erewrite remove_background_written by done. simpl.
        by rewrite lookup_insert_ne.
      * by erewrite remove_background_unwritable.
    + by erewrite remove_background_estimator_raises.
  - by rewrite remove_background_undecodable.
Qed.

Lemma process_file_files_other (input p : string) (st : world) :
  p ≠ output_file input → files (process_file input st).2 !! p = files st !! p.
Proof.
  intros Hp.
  destruct (files st !! input) as [c|] eqn:Hf;
    [|by rewrite process_file_missing].
  rewrite process_file_found by (by rewrite Hf).
  unfold bind at 1, print at 1. set (st1 := World _ _ _).
  pose proof (remove_background_files_other input (output_file input) p st1 Hp) as Hrb.
  unfold bind. destruct (remove_background _ _ st1) as [[[|]|e] st2]; done.
Qed.

(** X4. Whatever its arguments, [main] changes no file but the output
    file of the file it processes; in particular it never writes over its
    input. *)
Theorem main_changes_only_output (a : args) (st : world) :
  (∀ p, (∀ input, given (arg_file a) = Some input → p ≠ output_file input) →
        files (main a st).2 !! p = files st !! p) ∧
  (∀ input, given (arg_file a) = Some input →
            files (main a st).2 !! input = files st !! input).
Proof.
  assert (Hother : ∀ p,
    (∀ input, given (arg_file a) = Some input → p ≠ output_file input) →
    files (main a st).2 !! p = files st !! p).
  { intros p Hp. unfold main.
    destruct (arg_register a); [by rewrite keeps_files_register|].
    destruct (arg_unregister a); [by rewrite keeps_files_unregister|].
    destruct (given (arg_file a)) as [input|]; [|done].
    apply process_file_files_other. by apply Hp. }
  split; [exact Hother|].
  intros input Hg. apply Hother. intros input' Hg'.
  rewrite Hg in Hg'. injection Hg' as <-.
  intros Heq. by apply (output_file_differs input).
Qed.

(** ** Further properties of the registration *)

Lemma upsert_value_other (r : gmap string (gmap string string))
    (k n d key name : string) :
  (k, n) ≠ (key, name) →
  (upsert k n d r !! key ≫= λ values, values !! name)
  = (r !! key ≫= λ values, values !! name).
Proof.
  intros Hne. unfold upsert.
  destruct (decide (k = key)) as [->|Hk]; [|by rewrite lookup_insert_ne].
  rewrite lookup_insert_eq. simpl.
  rewrite lookup_insert_ne by congruence.
  by destruct (r !! key).
Qed.

Lemma upserts_value_other (l : list (string * string * string))
    (r : gmap string (gmap string string)) (key name : string) :
  (key, name) ∉ fst <$> l →
  (upserts l r !! key ≫= λ values, values !! name)
  = (r !! key ≫= λ values, values !! name).
Proof.
  revert r. induction l as [|[[k n] d] l IH]; intros r Hnot; [done|].
  rewrite fmap_cons, not_elem_of_cons in Hnot. destruct Hnot as [Hne Hnot].
  simpl. rewrite IH by done. apply upsert_value_other. simpl in Hne. congruence.
Qed.

(** The values the registration sets, one by one. *)
Lemma entry_values_keys (key name : string) :
  (key, name) ∈ fst <$> (extensions ≫= entry_values) →
  ∃ ext, ext ∈ extensions ∧
         ((key = key_path ext ∧ (name = EmptyString ∨ name = "Icon"))
          ∨ (key = command_path ext ∧ name = EmptyString)).
Proof.
  intros Hin. apply list_elem_of_fmap in Hin as ([[k n] d] & Heq & Hin).
  simpl in Heq. injection Heq as <- <-.
  apply list_elem_of_bind in Hin as (ext & Hin & Hext).
  exists ext. split; [done|]. unfold entry_values in Hin.
  repeat (apply elem_of_cons in Hin as [[= -> -> ->] | Hin]); [tauto..|].
  by apply elem_of_nil in Hin.
Qed.

(** X6. The registration removes no key of the registry and changes no
    value but the three it sets for each extension: the default value
    and the [Icon] value of the entry key, and the default value of its
    command key. *)
Theorem register_keeps_other_values (st : world) :
  dom (registry st) ⊆ dom (registry (register_context_menu st).2) ∧
  ∀ key name : string,
    (∀ ext, ext ∈ extensions →
       ¬ (key = key_path ext ∧ (name = EmptyString ∨ name = "Icon")) ∧
       ¬ (key = command_path ext ∧ name = EmptyString)) →
    (registry (register_context_menu st).2 !! key ≫= λ values, values !! name)
    = (registry st !! key ≫= λ values, values !! name).
Proof.
  unfold register_context_menu.
  destruct winreg_available; [|done].
  destruct (register_loop_run extensions st) as (lines & ->).
  cbn [fst snd registry]. split.
  - rewrite upserts_dom. apply union_subseteq_l.
  - intros key name Hnot. apply upserts_value_other.
    intros Hin. apply entry_values_keys in Hin as (ext & Hext & Hcase).
    destruct (Hnot ext Hext) as [H1 H2]. tauto.
Qed.

(** ** Further properties of the unregistration *)

Lemma key_path_not_command (ext : string) : key_path ext ≠ command_path ext.
Proof.
  unfold command_path. intros E. apply (f_equal String.length) in E.
  rewrite length_app in E. simpl in E. lia.
Qed.

(** One round of the loop: nothing is deleted, or the command key, or the
    command key and the entry key. *)
Lemma unregister_ext_registry (ext : string) (st : world) :
  registry (unregister_ext ext st).2 = registry st
  ∨ registry (unregister_ext ext st).2 = delete (command_path ext) (registry st)
  ∨ registry (unregister_ext ext st).2
    = delete (key_path ext) (delete (command_path ext) (registry st)).
Proof.
  unfold unregister_ext, try_except, bind, DeleteKey, print, command_path.
  destruct (registry st !! (key_path ext +:+ "\command")); simpl; [|by left].
  destruct (has_subkey (registry st) _); simpl; [by left|].
  destruct (delete _ _ !! key_path ext); simpl; [|by right; left].
  destruct (has_subkey _ (key_path ext)); simpl; [by right; left | by right; right].
Qed.

Lemma unregister_ext_subseteq (ext : string) (st : world) :
  registry (unregister_ext ext st).2 ⊆ registry st.
Proof.
  destruct (unregister_ext_registry ext st) as [-> | [-> | ->]]; [done| |].
  - apply delete_subseteq.
  - etrans; apply delete_subseteq.
Qed.

Lemma unregister_ext_other (ext k : string) (st : world) :
  k ≠ key_path ext → k ≠ command_path ext →
  registry (unregister_ext ext st).2 !! k = registry st !! k.
Proof.
  intros Hk Hc.
  destruct (unregister_ext_registry ext st) as [-> | [-> | ->]]; [done| |].
  - by rewrite lookup_delete_ne.
  - by rewrite !lookup_delete_ne.
Qed.

Lemma unregister_loop_subseteq (exts : list string) (st : world) :
  registry (for_each exts unregister_ext st).2 ⊆ registry st.
Proof.
  revert st. induction exts as [|ext exts IH]; intros st; simpl; [done|].
  unfold bind. pose proof (unregister_ext_subseteq ext st) as Hs.
  pose proof (unregister_ext_returns ext st) as Hr.
  destruct (unregister_ext ext st) as [[[]|e] st1]; simpl in *; [|done].
  etrans; [apply IH | done].
Qed.

Lemma unregister_loop_other (exts : list string) (k : string) (st : world) :
  (∀ ext, ext ∈ exts → k ≠ key_path ext ∧ k ≠ command_path ext) →
  registry (for_each exts unregister_ext st).2 !! k = registry st !! k.
Proof.
  revert st. induction exts as [|ext exts IH]; intros st Hk; simpl; [done|].
  unfold bind.
  destruct (Hk ext (list_elem_of_here _ _)) as [Hkp Hcp].
  pose proof (unregister_ext_other ext k st Hkp Hcp) as Ho.
  destruct (unregister_ext ext st) as [[[]|e] st1]; simpl in *; [|done].
  rewrite IH; [done|]. intros e He. apply Hk. by apply list_elem_of_further.
Qed.

(** X12. The unregistration only ever deletes: what is left of the
    registry is part of what was there, and every key other than the
    entry keys and command keys of the four extensions is left with its
    values. *)
Theorem unregister_only_removes_entries (st : world) :
  registry (unregister_context_menu st).2 ⊆ registry st ∧
  ∀ k : string,
    (∀ ext, ext ∈ extensions → k ≠ key_path ext ∧ k ≠ command_path ext) →
    registry (unregister_context_menu st).2 !! k = registry st !! k.
Proof.
  unfold unregister_context_menu. destruct winreg_available; [|done].
  split; [apply unregister_loop_subseteq|].
  intros k Hk. by apply unregister_loop_other.
Qed.

(** The keys of two different extensions are different. *)
Lemma entry_keys_distinct (ext ext' : string) :
  ext ∈ extensions → ext' ∈ extensions → ext ≠ ext' →
  key_path ext ≠ key_path ext' ∧ key_path ext ≠ command_path ext' ∧
  command_path ext ≠ key_path ext' ∧ command_path ext ≠ command_path ext'.
Proof.
  unfold extensions. intros He He' Hne.
  repeat (apply elem_of_cons in He as [-> | He]);
    try (by apply elem_of_nil in He);
    repeat (apply elem_of_cons in He' as [-> | He']);
    try (by apply elem_of_nil in He'); try done;
    vm_compute; repeat split; discriminate.
Qed.

(** X8. An entry whose command key is missing is never removed: for such
    an extension the first [DeleteKey] fails, the round ends in the
    [except] branch, and the entry key keeps its values. *)
Theorem unregister_needs_command_key (st : world) (ext : string) :
  ext ∈ extensions →
  registry st !! command_path ext = None →
  registry (unregister_context_menu st).2 !! key_path ext
  = registry st !! key_path ext.
Proof.
  intros Hext Hnone. unfold unregister_context_menu.
  destruct winreg_available; [|done].
  assert (Hsub : ∀ exts, exts ⊆ extensions → ∀ s,
    registry s !! command_path ext = None →
    registry (for_each exts unregister_ext s).2 !! key_path ext
    = registry s !! key_path ext).
  { induction exts as [|e exts IH]; intros Hincl s Hs; simpl; [done|].
    unfold bind.
    assert (He : e ∈ extensions) by (apply Hincl, list_elem_of_here).
    assert (Hstep : registry (unregister_ext e s).2 !! key_path ext
                    = registry s !! key_path ext
                    ∧ registry (unregister_ext e s).2 !! command_path ext = None).
    { destruct (decide (e = ext)) as [->|Hne].
      - by rewrite unregister_ext_clean.
      - destruct (entry_keys_distinct ext e Hext He) as (H1 & H2 & H3 & H4);
          [done|].
        rewrite !unregister_ext_other by done. done. }
    destruct Hstep as [Hkey Hcmd].
    destruct (unregister_ext e s) as [[[]|err] s1]; simpl in *; [|done].
    rewrite IH; [done| |done].
    intros x Hx. apply Hincl. by apply list_elem_of_further. }
  by apply Hsub.
Qed.

(** ** Registration followed by unregistration *)

Lemma prefix_app_l (p q k : string) :
  String.prefix (p +:+ q) k = true → String.prefix p k = true.
Proof.
  revert k. induction p as [|a p IH]; intros k; rewrite ?append_nil, ?append_cons.
  - by destruct k.
  - destruct k as [|b k]; simpl; [done|].
    destruct (ascii_dec a b); [apply IH | done].
Qed.

Lemma prefix_app (p q : string) : String.prefix p (p +:+ q) = true.
Proof.
  induction p as [|a p IH]; rewrite ?append_nil, ?append_cons; [by destruct q|].
  simpl. by destruct (ascii_dec a a).
Qed.

Lemma prefix_longer (p q : string) (c : Ascii.ascii) :
  String.prefix (p +:+ String c q) p = false.
Proof.
  induction p as [|a p IH]; rewrite ?append_nil, ?append_cons; [done|].
  simpl. by destruct (ascii_dec a a).
Qed.

Lemma command_path_below (ext : string) :
  command_path ext = (key_path ext +:+ backslash) +:+ "command".
Proof. unfold command_path. by rewrite append_assoc. Qed.

Lemma has_subkey_false (r : gmap string (gmap string string)) (path : string) :
  (∀ k, k ∈ dom r → String.prefix (path +:+ backslash) k = false) →
  has_subkey r path = false.
Proof.
  intros Hk. unfold has_subkey. apply not_true_is_false. intros Hex.
  apply existsb_exists in Hex as (k & Hin & Hp).
  apply list_elem_of_In, elem_of_elements in Hin.
  rewrite Hk in Hp; done.
Qed.

(** One round on an installed entry with nothing else below it: both keys
    are deleted. *)
Lemma unregister_ext_installed (ext : string) (st : world) :
  is_Some (registry st !! key_path ext) →
  is_Some (registry st !! command_path ext) →
  (∀ k, k ∈ dom (registry st) →
        String.prefix (key_path ext +:+ backslash) k = true → k = command_path ext) →
  unregister_ext ext st
  = (Ok (),
     World (files st)
       (delete (key_path ext) (delete (command_path ext) (registry st)))
       (stdout st ++ ["Unregistered context menu for " +:+ ext +:+ " files."])).
Proof.
  intros [v Hkey] [vc Hcmd] Hbelow.
  assert (S1 : has_subkey (registry st) (command_path ext) = false).
  { apply has_subkey_false. intros k Hk.
    destruct (String.prefix (command_path ext +:+ backslash) k) eqn:E; [|done].
    assert (E' := E). rewrite command_path_below, append_assoc in E'.
    apply prefix_app_l in E'. apply (Hbelow k Hk) in E'. subst k.
    unfold backslash in E. by rewrite prefix_longer in E. }
  assert (S2 : has_subkey (delete (command_path ext) (registry st)) (key_path ext) = false).
  { apply has_subkey_false. intros k Hk.
    rewrite dom_delete_L in Hk. apply elem_of_difference in Hk as [Hk Hne].
    destruct (String.prefix (key_path ext +:+ backslash) k) eqn:E; [|done].
    apply (Hbelow k Hk) in E. subst k. exfalso. apply Hne. by apply elem_of_singleton. }
  unfold unregister_ext, try_except, bind, DeleteKey, print.
  fold (command_path ext). rewrite Hcmd, S1. simpl.
  rewrite lookup_delete_ne by (apply not_eq_sym, key_path_not_command).
  by rewrite Hkey, S2.
Qed.

Lemma unregister_loop_installed (exts : list string) (st : world) :
  NoDup exts → exts ⊆ extensions →
  (∀ e, e ∈ exts → is_Some (registry st !! key_path e)
                   ∧ is_Some (registry st !! command_path e)) →
  (∀ e k, e ∈ exts → k ∈ dom (registry st) →
          String.prefix (key_path e +:+ backslash) k = true → k = command_path e) →
  registry (for_each exts unregister_ext st).2
  = foldl (λ r e, delete (key_path e) (delete (command_path e) r)) (registry st) exts.
Proof.
  revert st. induction exts as [|e exts IH]; intros st Hnd Hincl Hin Hbelow; [done|].
  apply NoDup_cons in Hnd as [Hnot Hnd].
  assert (He : e ∈ extensions) by (apply Hincl, list_elem_of_here).
  destruct (Hin e (list_elem_of_here _ _)) as [Hk Hc].
  simpl for_each.
  rewrite (bind_ok _ _ _ _ _ (unregister_ext_installed e st Hk Hc
                                 (λ k, Hbelow e k (list_elem_of_here _ _)))).
  rewrite IH; [done|done| | |].
  - intros x Hx. apply Hincl. by apply list_elem_of_further.
  - intros e' He'. cbn [registry].
    assert (Hne : e' ≠ e) by (intros ->; done).
    assert (He'x : e' ∈ extensions) by (apply Hincl; by apply list_elem_of_further).
    destruct (entry_keys_distinct e' e He'x He Hne) as (H1 & H2 & H3 & H4).
    rewrite !lookup_delete_ne by done.
    apply Hin. by apply list_elem_of_further.
  - intros e' k He' Hdom. cbn [registry] in Hdom.
    rewrite !dom_delete_L in Hdom.
    apply elem_of_difference in Hdom as [Hdom _].
    apply elem_of_difference in Hdom as [Hdom _].
    apply Hbelow; [by apply list_elem_of_further | done].
Qed.

Lemma deleted_entries_lookup (exts : list string)
    (r : gmap string (gmap string string)) (k : string) :
  foldl (λ r e, delete (key_path e) (delete (command_path e) r)) r exts !! k
  = if decide (k ∈ exts ≫= λ e, [key_path e; command_path e]) then None else r !! k.
Proof.
  revert r. induction exts as [|e exts IH]; intros r; [done|].
  simpl foldl. rewrite IH, bind_cons.
  destruct (decide (k ∈ exts ≫= _)) as [Hin|Hout].
  - rewrite decide_True; [done|]. apply elem_of_app. by right.
  - destruct (decide (k ∈ [key_path e; command_path e])) as [Hk|Hk].
    + rewrite decide_True by (apply elem_of_app; by left).
      apply elem_of_cons in Hk as [->|Hk]; [apply lookup_delete_eq|].
      apply elem_of_cons in Hk as [->|Hk]; [|by apply elem_of_nil in Hk].
      rewrite lookup_delete_ne by apply key_path_not_command.
      apply lookup_delete_eq.
    + rewrite decide_False by (rewrite elem_of_app; tauto).
      rewrite !not_elem_of_cons in Hk. destruct Hk as (Hk1 & Hk2 & _).
      by rewrite !lookup_delete_ne.
Qed.

Lemma upserts_lookup_other (l : list (string * string * string))
    (r : gmap string (gmap string string)) (k : string) :
  k ∉ (λ t, t.1.1) <$> l → upserts l r !! k = r !! k.
Proof.
  revert r. induction l as [|[[k' n] d] l IH]; intros r Hnot; [done|].
  rewrite fmap_cons, not_elem_of_cons in Hnot. destruct Hnot as [Hne Hnot].
  simpl. rewrite IH by done. unfold upsert. by rewrite lookup_insert_ne.
Qed.

Lemma entry_values_key_list (exts : list string) :
  (λ t : string * string * string, t.1.1) <$> (exts ≫= entry_values)
  = exts ≫= λ e, [key_path e; key_path e; command_path e].
Proof.
  induction exts as [|e exts IH]; [done|].
  rewrite !bind_cons, fmap_app, IH. done.
Qed.

(** Among the keys of the four extensions, only the command key of an
    extension lies below its entry key. *)
Lemma entry_keys_below (e e' : string) :
  e ∈ extensions → e' ∈ extensions →
  String.prefix (key_path e +:+ backslash) (key_path e') = false ∧
  (String.prefix (key_path e +:+ backslash) (command_path e') = true → e' = e).
Proof.
  unfold extensions. intros He He'.
  repeat (apply elem_of_cons in He as [-> | He]);
    try (by apply elem_of_nil in He);
    repeat (apply elem_of_cons in He' as [-> | He']);
    try (by apply elem_of_nil in He');
    vm_compute; split; done.
Qed.

(** In this store, which holds the named keys only, registering and then
    unregistering gives back the registry, when it held none of the entry
    keys and nothing below them. *)
Lemma register_unregister_store (st : world) :
  winreg_available = true →
  (∀ ext k, ext ∈ extensions → k ∈ dom (registry st) →
     k ≠ key_path ext ∧ String.prefix (key_path ext +:+ backslash) k = false) →
  registry (unregister_context_menu (register_context_menu st).2).2 = registry st.
Proof.
  intros Hw Hfree. unfold unregister_context_menu, register_context_menu. rewrite Hw.
  destruct (register_loop_run extensions st) as (lines & ->). cbn [snd].
  set (l := extensions ≫= entry_values).
  assert (Hkeys : ∀ k, k ∈ dom (upserts l (registry st)) →
    k ∈ dom (registry st) ∨ ∃ e, e ∈ extensions ∧ (k = key_path e ∨ k = command_path e)).
  { intros k Hk. rewrite upserts_dom in Hk. apply elem_of_union in Hk as [Hk|Hk];
      [by left | right].
    apply elem_of_list_to_set in Hk. unfold l in Hk.
    rewrite entry_values_key_list in Hk.
    apply list_elem_of_bind in Hk as (e & Hk & He). exists e. split; [done|].
    repeat (apply elem_of_cons in Hk as [-> | Hk]); [tauto..|].
    by apply elem_of_nil in Hk. }
  rewrite unregister_loop_installed.
  - cbn [registry]. apply map_eq. intros k. rewrite deleted_entries_lookup.
    destruct (decide (k ∈ extensions ≫= _)) as [Hin|Hout].
    + apply list_elem_of_bind in Hin as (e & Hk & He).
      destruct (registry st !! k) as [v|] eqn:E; [|done].
      assert (Hdom : k ∈ dom (registry st)) by (apply elem_of_dom; by eexists).
      destruct (Hfree e k He Hdom) as [Hne Hpre].
      apply elem_of_cons in Hk as [->|Hk]; [done|].
      apply elem_of_cons in Hk as [->|Hk]; [|by apply elem_of_nil in Hk].
      by rewrite command_path_below, prefix_app in Hpre.
    + apply upserts_lookup_other. unfold l. rewrite entry_values_key_list.
      intros Hin. apply Hout.
      apply list_elem_of_bind in Hin as (e & Hk & He).
      apply list_elem_of_bind. exists e. split; [|done].
      repeat (apply elem_of_cons in Hk as [-> | Hk]);
        try (by apply elem_of_nil in Hk);
        auto using list_elem_of_here, list_elem_of_further.
  - unfold extensions. apply (bool_decide_unpack _). vm_compute. exact I.
  - done.
  - intros e He. cbn [registry].
    assert (H1 : has_value (upserts l (registry st)) (key_path e) EmptyString
                   "Remove Background").
    { apply upserts_has; [apply entry_values_NoDup|].
      apply list_elem_of_bind. exists e. split; [apply list_elem_of_here | done]. }
    assert (H2 : has_value (upserts l (registry st)) (command_path e) EmptyString command).
    { apply upserts_has; [apply entry_values_NoDup|].
      apply list_elem_of_bind. exists e. split; [|done].
      do 2 apply list_elem_of_further. apply list_elem_of_here. }
    destruct H1 as (v1 & -> & _), H2 as (v2 & -> & _). by split; eexists.
  - intros e k He Hk Hpre. cbn [registry] in Hk.
    destruct (Hkeys k Hk) as [Hdom | (e' & He' & [-> | ->])].
    + destruct (Hfree e k He Hdom) as [_ Hno]. congruence.
    + destruct (entry_keys_below e e' He He') as [Hno _]. congruence.
    + destruct (entry_keys_below e e' He He') as [_ Hsame]. by rewrite (Hsame Hpre).
Qed.


(** ** Further properties of the initialization rectangle *)

Lemma int_mul_quotients (n : Z) :
  0 ≤ n ≤ 4096 →
  int_mul n float_0_05 = n / 20 ∧ int_mul n float_0_1 = n / 10.
Proof.
  intros Hn. pose proof int_mul_quotients_upto_4096 as Hall.
  rewrite forallb_forall in Hall.
  assert (Hin : n ∈ seqZ 0 4097) by (apply elem_of_seqZ; lia).
  apply list_elem_of_In, Hall, andb_prop in Hin as [H1 H2].
  by apply Z.eqb_eq in H1, H2.
Qed.

(** X10. For images of up to 4096 pixels a side the two floating-point
    products are exact integer quotients: the rectangle is
    (max(1, width/20), max(1, height/20), width - width/10,
    height - height/10) in integer arithmetic. *)
Theorem inset_rect_quotients (w h : Z) :
  0 ≤ w ≤ 4096 → 0 ≤ h ≤ 4096 →
  inset_rect w h
  = Rect (Z.max 1 (w / 20)) (Z.max 1 (h / 20)) (w - w / 10) (h - h / 10).
Proof.
  intros Hw Hh. unfold inset_rect.
  destruct (int_mul_quotients w Hw) as [-> ->].
  by destruct (int_mul_quotients h Hh) as [-> ->].
Qed.

(** One side of the rectangle, in integers. *)
Lemma inset_side (n : Z) :
  1 ≤ n →
  0 < n - n / 10 ∧ 1 ≤ Z.max 1 (n / 20) ∧
  (Z.max 1 (n / 20) + (n - n / 10) ≤ n ↔ 10 ≤ n) ∧
  (Z.max 1 (n / 20) + (n - n / 10) < n ↔ 20 ≤ n).
Proof.
  intros Hn.
  pose proof (Z.div_mod n 20 ltac:(lia)) as E20.
  pose proof (Z.mod_pos_bound n 20 ltac:(lia)) as B20.
  pose proof (Z.div_mod n 10 ltac:(lia)) as E10.
  pose proof (Z.mod_pos_bound n 10 ltac:(lia)) as B10.
  lia.
Qed.

(** X11. For images of 1 to 4096 pixels a side, the rectangle always has
    positive width and height and starts at column and row 1 or later; it
    stays inside the image exactly when both sides are at least 10
    pixels, and it satisfies the invariant of the estimator (a margin on
    every side) exactly when both sides are at least 20 pixels. *)
Theorem inset_rect_validity (w h : Z) :
  1 ≤ w ≤ 4096 → 1 ≤ h ≤ 4096 →
  rect_positive (inset_rect w h) = true ∧
  1 ≤ rx (inset_rect w h) ∧ 1 ≤ ry (inset_rect w h) ∧
  rect_inside w h (inset_rect w h) = (10 <=? w) && (10 <=? h) ∧
  rect_invariant w h (inset_rect w h) = (20 <=? w) && (20 <=? h).
Proof.
  intros Hw Hh. unfold inset_rect.
  destruct (int_mul_quotients w) as [-> ->]; [lia|].
  destruct (int_mul_quotients h) as [-> ->]; [lia|].
  destruct (inset_side w) as (Pw & Xw & Iw & Sw); [lia|].
  destruct (inset_side h) as (Ph & Xh & Ih & Sh); [lia|].
  unfold rect_invariant, rect_strictly_inside, rect_inside, rect_positive.
  cbn [rx ry rw rh].
  assert (Epos : (0 <? w - w / 10) && (0 <? h - h / 10) = true)
    by (apply andb_true_intro; split; apply Z.ltb_lt; lia).
  split; [exact Epos|]. split; [done|]. split; [done|]. split.
  - apply Bool.eq_iff_eq_true.
    rewrite !andb_true_iff, !Z.leb_le. lia.
  - rewrite Epos, andb_true_r. apply Bool.eq_iff_eq_true.
    rewrite !andb_true_iff, !Z.ltb_lt, !Z.leb_le. lia.
Qed.

(** ** The last line [main] prints for a file *)

(** X13. When [main] processes an existing file, its last line tells what
    happened to the file store: after [Background removal complete.] the
    output path holds new contents and nothing else has changed; after
    [Background removal failed.], or when an exception leaves [main], the
    file store is as it was. *)
Theorem main_final_line (a : args) (input : string) (st : world) :
  arg_register a = false → arg_unregister a = false →
  given (arg_file a) = Some input → is_Some (files st !! input) →
  ((main a st).1 = Ok () ∧
   last (stdout (main a st).2) = Some "Background removal complete." ∧
   ∃ contents, files (main a st).2 = <[output_file input := contents]> (files st))
  ∨ ((main a st).1 = Ok () ∧
     last (stdout (main a st).2) = Some "Background removal failed." ∧
     files (main a st).2 = files st)
  ∨ (∃ e, (main a st).1 = Raise e ∧ files (main a st).2 = files st).
Proof.
  intros Hr Hu Hg Hf.
  destruct (main a st) as [res st'] eqn:E. cbn [fst snd].
  unfold main in E. rewrite Hr, Hu, Hg, process_file_found in E by done.
  unfold bind at 1, print at 1 in E. set (st1 := World _ _ _) in E.
  destruct (files st1 !! input ≫= decode) as [img|] eqn:Hd.
  - destruct (segment img (inset_rect (width img) (height img)) 5) as [[labels n]|e] eqn:Hs.
    + destruct (writable (files st1) (output_file input)) eqn:Hw.
      * left. erewrite (bind_ok _ _ st1) in E; [|by eapply remove_background_written].
        unfold print in E. injection E as <- <-. cbn [stdout files set_files].
        split; [done|]. split; [apply last_snoc | by eexists].
      * right; left.
        erewrite (bind_ok _ _ st1) in E; [|by eapply remove_background_unwritable].
        unfold print in E. injection E as <- <-. cbn [stdout files].
        split; [done|]. split; [apply last_snoc | done].
    + right; right. exists e.
      erewrite (bind_raise _ _ st1) in E; [|by eapply remove_background_estimator_raises].
      by injection E as <- <-.
  - right; left.
    erewrite (bind_ok _ _ st1) in E; [|by apply remove_background_undecodable].
    unfold print in E. injection E as <- <-. cbn [stdout files].
    split; [done|]. split; [apply last_snoc | done].
Qed.

End program.

(* ================================================================== *)
(** * Part III: the theorems at sample inputs                          *)
(* ================================================================== *)

Lemma segment_invalid_rect_witness :
  @segment sample_env image_5x5 (Rect 1 1 5 5) 5 = Raise InvalidInput.
Proof.
  apply (@segment_invalid_rect sample_env image_5x5 (Rect 1 1 5 5) 5).
  right; right. reflexivity.
Defined.



Lemma main_reports_failure_witness :
  ∃ (st' : world) (lines : list string) (diagnostic : string),
    @main sample_env (Args false false (Some "/a/bad.jpg")) sample_world = (Ok (), st') ∧
    stdout st' = stdout sample_world ++ lines ∧
    diagnostic ∈ lines ∧ is_diagnostic diagnostic = true ∧
    files st' = files sample_world.
Proof.
  apply (@main_reports_failure sample_env (Args false false (Some "/a/bad.jpg"))
           "/a/bad.jpg" sample_world); [reflexivity | reflexivity | reflexivity |].
  left. reflexivity.
Defined.

Lemma output_file_next_to_input_witness :
  let input := "/a/cat.jpg" in
  let output := "/a/cat_nobg.png" in
  @output_file sample_env input = output ∧
  @directory_of sample_env output = @directory_of sample_env input ∧
  ∀ (st : world) (img : image) (labels : plane) (n : nat),
    files st !! input ≫= @decode sample_env = Some img →
    @segment sample_env img (inset_rect (width img) (height img)) 5 = Ok (labels, n) →
    @writable sample_env (files st) output = true →
    ∃ st', @main sample_env (Args false false (Some input)) st = (Ok (), st') ∧
           files st' = <[output := @encode sample_env (composite img labels)]> (files st) ∧
           stdout st' = stdout st ++
             ["Processing '" +:+ input +:+ "' -> '" +:+ output +:+ "'";
              "Background removal complete."].
Proof.
  apply (@output_file_next_to_input sample_env "/a/" "at" "jpg" "c"%char);
    [discriminate | reflexivity | reflexivity | reflexivity].
Defined.


(** ** The script on the sample world *)

(** A 20 x 20 image is processed and its output stored. *)
Example main_processes_cat :
  let run := @main sample_env (Args false false (Some "/a/cat.jpg")) sample_world in
  run.1 = Ok () ∧
  stdout run.2 = ["Processing '/a/cat.jpg' -> '/a/cat_nobg.png'";
                  "Background removal complete."] ∧
  files run.2 !! "/a/cat_nobg.png" = Some "png".
Proof. vm_compute. done. Qed.

(** The output cannot be written: a diagnostic, no exception. *)
Example main_unwritable_output :
  let run := @main sample_env (Args false false (Some "/ro/cat.jpg")) sample_world in
  run.1 = Ok () ∧
  stdout run.2 = ["Processing '/ro/cat.jpg' -> '/ro/cat_nobg.png'";
                  "Error: Could not write image to '/ro/cat_nobg.png'";
                  "Background removal failed."] ∧
  files run.2 = files sample_world.
Proof. vm_compute. done. Qed.

(** On the 5 x 5 image the rectangle breaks the invariant the spec gives
    the estimator; the exception of the estimator modelled from the spec
    is not caught. *)
Example main_small_image_raises :
  let run := @main sample_env (Args false false (Some "/a/icon.jpg")) sample_world in
  run.1 = Raise InvalidInput ∧
  stdout run.2 = ["Processing '/a/icon.jpg' -> '/a/icon_nobg.png'"] ∧
  files run.2 = files sample_world.
Proof. vm_compute. done. Qed.

(** Both flags and a file: only the registration runs. *)
Example main_register_wins :
  @main sample_env (Args true true (Some "/a/cat.jpg")) sample_world
  = @register_context_menu sample_env sample_world.
Proof. reflexivity. Qed.

(** Registration followed by unregistration leaves the registry empty. *)
Example register_then_unregister :
  let installed := (@register_context_menu sample_env sample_world).2 in
  let removed := @unregister_context_menu sample_env installed in
  size (registry installed) = 8%nat ∧
  removed.1 = Ok () ∧ registry removed.2 = ∅.
Proof. vm_compute. done. Qed.

(** [splitext] on names without an extension it can split off. *)
Example splitext_hidden_file :
  @splitext sample_env "/a/.png" = ("/a/.png", EmptyString) ∧
  @output_file sample_env "/a/.png" = "/a/.png_nobg.png" ∧
  @splitext sample_env "/a.b/cat" = ("/a.b/cat", EmptyString).
Proof. vm_compute. done. Qed.

(** ** The further properties at sample inputs *)

Lemma composite_blank_or_opaque_witness :
  ∃ (p : bgr) (m : Z),
    at2 image_2x2 1 1 = Some p ∧ at2 [[0; 1]; [2; 200]] 1 1 = Some m ∧
    if (m =? GC_BGD) || (m =? GC_PR_BGD) then Bgra 250 251 252 255 = Bgra 0 0 0 0
    else Bgra 250 251 252 255 = Bgra (blue p) (green p) (red p) 255.
Proof.
  apply (composite_blank_or_opaque image_2x2 [[0; 1]; [2; 200]] 1 1
           (Bgra 250 251 252 255)); reflexivity.
Defined.



Lemma unregister_needs_command_key_witness :
  registry
    (@unregister_context_menu sample_env
       (World ∅ {[ key_path ".png" := {[ "Icon" := "old.ico" ]} ]} [])).2
    !! key_path ".png"
  = registry (World ∅ {[ key_path ".png" := {[ "Icon" := "old.ico" ]} ]} [])
    !! key_path ".png".
Proof.
  apply (@unregister_needs_command_key sample_env
           (World ∅ {[ key_path ".png" := {[ "Icon" := "old.ico" ]} ]} []) ".png").
  - unfold extensions. do 2 apply list_elem_of_further. apply list_elem_of_here.
  - reflexivity.
Defined.

Lemma inset_rect_quotients_witness : inset_rect 1920 1080 = Rect 96 54 1728 972.
Proof. apply (inset_rect_quotients 1920 1080); lia. Defined.

Lemma inset_rect_validity_witness :
  rect_positive (inset_rect 15 100) = true ∧
  1 ≤ rx (inset_rect 15 100) ∧ 1 ≤ ry (inset_rect 15 100) ∧
  rect_inside 15 100 (inset_rect 15 100) = (10 <=? 15) && (10 <=? 100) ∧
  rect_invariant 15 100 (inset_rect 15 100) = (20 <=? 15) && (20 <=? 100).
Proof. apply (inset_rect_validity 15 100); lia. Defined.

Lemma main_final_line_witness :
  let run := @main sample_env (Args false false (Some "/a/cat.jpg")) sample_world in
  (run.1 = Ok () ∧
   last (stdout run.2) = Some "Background removal complete." ∧
   ∃ contents,
     files run.2 = <[@output_file sample_env "/a/cat.jpg" := contents]> (files sample_world))
  ∨ (run.1 = Ok () ∧
     last (stdout run.2) = Some "Background removal failed." ∧
     files run.2 = files sample_world)
  ∨ (∃ e, run.1 = Raise e ∧ files run.2 = files sample_world).
Proof.
  apply (@main_final_line sample_env (Args false false (Some "/a/cat.jpg"))
           "/a/cat.jpg" sample_world); [reflexivity | reflexivity | reflexivity |].
  by eexists.
Defined.
